(** * ClaraVerse voice task processor: a shallow embedding

    Source: [py_backend/clara_task_processor.py].

    The development follows the three classes of the module:
    - [VoiceCommandParser]: the ordered intent pattern table, [parse_command]
      and [_extract_parameters];
    - [TaskManager]: the in-memory task store ([tasks_db]) with
      [create_task], [complete_task], [list_tasks], [delete_task], [_find_task];
    - [ClaraTaskProcessor]: [process_voice_command], [_process_task_command]
      and [_handle_unknown_command];
    followed by the other entry points of the module
    ([VoiceServiceIntegrator.process_voice_request],
    [process_voice_command_standalone]) and by the callers of the processor
    in [py_backend/clara_voice_agent.py] ([_is_command],
    [_process_task_command] and the module-level [process_voice_command]).

    Modelling choices.
    - Text is [String.string], one symbol per character.  The symbols below
      128 are the ASCII characters, and on them [lower], [strip] and the
      classes [\s] and [\d] are computed as Python does.  The symbols from
      128 on stand for characters outside ASCII: what Python makes of them is
      a parameter of the whole development ([PyStr.Unicode]), so that a
      statement proved here holds whatever these characters are.  [Latin1]
      is the instance for U+0080..U+00FF, on which the examples run.  The
      two status icons of [list_tasks] are written with their UTF-8 bytes.
    - [re.search] is a backtracking matcher in continuation-passing style over
      the fragment of the regular-expression syntax the module's patterns use
      (literals, classes with greedy counted repetition, alternation, greedy
      optional groups, capturing groups).  Alternatives are tried left to
      right and repetitions longest first, as the Python engine does.
    - A Python call either returns or raises: [outcome].  An exception is
      kept as its text [str(e)] and as whether it is an instance of
      [Exception], the class the handlers name: [except Exception] lets
      [KeyboardInterrupt], [SystemExit] and [asyncio.CancelledError] through.
      Exceptions are raised by the calls of the model; a signal that
      interrupts the interpreter between two of them is not modelled.  A
      coroutine that uses the task store is a function from the store's state
      to an outcome and the state afterwards.
    - [uuid.uuid4()] and [datetime.now()] are inputs of the store operations
      that call them; timestamps are integers.  Logging is not modelled. *)

From Stdlib Require Import Bool Arith ZArith Lia List Ascii String.
From Stdlib Require Import Sorting.Sorted Sorting.Permutation.
From Stdlib Require Import Numbers.DecimalString.
Import ListNotations.
Open Scope string_scope.

(* ------------------------------------------------------------------ *)
(** ** Python strings *)

Module PyStr.

(** What Python does with the characters outside ASCII: which of them are
    white space ([str.isspace], which [str.strip] and the class [\s] of [re]
    follow), which are decimal digits (the class [\d]), and what [str.lower]
    returns for a text that holds one of them.  [str.lower] is taken on the
    whole text: outside ASCII it may change the number of characters and
    depend on the neighbours of a letter. *)
Class Unicode := mkUnicode {
  space_high : ascii -> bool;
  digit_high : ascii -> bool;
  lower_high : string -> string
}.

Definition is_ascii (c : ascii) : bool := (nat_of_ascii c <? 128)%nat.

Fixpoint ascii_only (s : string) : bool :=
  match s with
  | EmptyString => true
  | String c s' => is_ascii c && ascii_only s'
  end.

(** The white space of ASCII: TAB..CR, FS..US and SPACE. *)
Definition ascii_space (c : ascii) : bool :=
  let n := nat_of_ascii c in
  (((9 <=? n) && (n <=? 13)) || ((28 <=? n) && (n <=? 32)))%nat.

Definition ascii_digit (c : ascii) : bool :=
  let n := nat_of_ascii c in ((48 <=? n) && (n <=? 57))%nat.

Definition ascii_lower_char (c : ascii) : ascii :=
  let n := nat_of_ascii c in
  if ((65 <=? n) && (n <=? 90))%nat then ascii_of_nat (n + 32) else c.

Fixpoint map_chars (f : ascii -> ascii) (s : string) : string :=
  match s with
  | EmptyString => EmptyString
  | String c s' => String (f c) (map_chars f s')
  end.

Section Text.
Context {U : Unicode}.

(** [c.isspace()] *)
Definition is_space (c : ascii) : bool :=
  if is_ascii c then ascii_space c else space_high c.

(** [c] is a decimal digit. *)
Definition is_digit (c : ascii) : bool :=
  if is_ascii c then ascii_digit c else digit_high c.

(** [s.lower()] *)
Definition lower (s : string) : string :=
  if ascii_only s then map_chars ascii_lower_char s else lower_high s.

Fixpoint lstrip (s : string) : string :=
  match s with
  | EmptyString => EmptyString
  | String c s' => if is_space c then lstrip s' else s
  end.

Fixpoint rstrip (s : string) : string :=
  match s with
  | EmptyString => EmptyString
  | String c s' =>
      match rstrip s' with
      | EmptyString => if is_space c then EmptyString else String c EmptyString
      | r => String c r
      end
  end.

(** [s.strip()] *)
Definition strip (s : string) : string := rstrip (lstrip s).

End Text.

(** Two facts of [str.lower] that hold for every Python text: lowering a
    lowered text changes nothing, and lowering keeps the white space at
    both ends, so that it commutes with [str.strip]. *)
Class UnicodeLaws (U : Unicode) : Prop := mkUnicodeLaws {
  law_lower_idem : forall s, lower (lower s) = lower s;
  law_lower_strip : forall s, lower (strip s) = strip (lower s)
}.

(** The characters U+0080..U+00FF as Python treats them: U+0085 and U+00A0
    are white space, none is a decimal digit, and the capital letters
    U+00C0..U+00DE (U+00D7, the multiplication sign, apart) are lowered to
    the letters 32 places further. *)
Definition latin1_lower_char (c : ascii) : ascii :=
  let n := nat_of_ascii c in
  if (((65 <=? n) && (n <=? 90)) || ((192 <=? n) && (n <=? 214))
      || ((216 <=? n) && (n <=? 222)))%nat
  then ascii_of_nat (n + 32) else c.

Definition Latin1 : Unicode :=
  mkUnicode
    (fun c => let n := nat_of_ascii c in ((n =? 133) || (n =? 160))%nat)
    (fun _ => false)
    (map_chars latin1_lower_char).

(** [needle in hay] on strings: substring test. *)
Fixpoint contains (needle hay : string) : bool :=
  if prefix needle hay then true
  else match hay with
       | EmptyString => false
       | String _ hay' => contains needle hay'
       end.

(** [any(word in text for word in words)] *)
Definition any_in (words : list string) (text : string) : bool :=
  existsb (fun word => contains word text) words.

(** [sep.join(items)] *)
Fixpoint join (sep : string) (items : list string) : string :=
  match items with
  | [] => ""
  | [x] => x
  | x :: rest => x ++ sep ++ join sep rest
  end.

(** [str(n)] for a length. *)
Definition str_of_nat (n : nat) : string :=
  NilEmpty.string_of_uint (Nat.to_uint n).

(** The first [n] characters of [s]. *)
Fixpoint take (n : nat) (s : string) : string :=
  match n, s with
  | S n', String c s' => String c (take n' s')
  | _, _ => EmptyString
  end.

(** [s] without the prefix [p], when [s] starts with [p]. *)
Fixpoint strip_prefix (p s : string) : option string :=
  match p, s with
  | EmptyString, _ => Some s
  | String a p', String b s' =>
      if Ascii.eqb a b then strip_prefix p' s' else None
  | String _ _, EmptyString => None
  end.

End PyStr.

(* ------------------------------------------------------------------ *)
(** ** Python dicts with string keys and values

    Insertion ordered; assigning to a key that is present replaces its value
    where it stands. *)

Module PyDict.

Definition dict := list (string * string).

Fixpoint get (k : string) (d : dict) : option string :=
  match d with
  | [] => None
  | (k', v) :: d' => if String.eqb k' k then Some v else get k d'
  end.

(** [d[k] = v] *)
Fixpoint set (k v : string) (d : dict) : dict :=
  match d with
  | [] => [(k, v)]
  | (k', v') :: d' =>
      if String.eqb k' k then (k', v) :: d' else (k', v') :: set k v d'
  end.

(** [{**d, **more}] *)
Definition update (d more : dict) : dict :=
  fold_left (fun acc kv => set (fst kv) (snd kv) acc) more d.

Definition keys (d : dict) : list string := map fst d.

End PyDict.

(* ------------------------------------------------------------------ *)
(** ** The fragment of [re] the module uses *)

Module re.

Section WithUnicode.
Context {U : PyStr.Unicode}.

Inductive cset :=
| CSpace                (* \s *)
| CDigit                (* \d *)
| CDot                  (* .  : anything but a newline *)
| CChar (c : ascii).    (* one literal character under a quantifier *)

Definition in_cset (cs : cset) (c : ascii) : bool :=
  match cs with
  | CSpace => PyStr.is_space c
  | CDigit => PyStr.is_digit c
  | CDot => negb (Ascii.eqb c "010"%char)
  | CChar a => Ascii.eqb a c
  end.

Inductive regex :=
| Lit (s : string)                             (* literal text *)
| Rep (cs : cset) (lo : nat) (hi : option nat) (* greedy cs{lo,hi} *)
| Cat (r1 r2 : regex)                          (* r1 r2 *)
| Or (r1 r2 : regex)                           (* r1|r2 *)
| Opt (r : regex)                              (* (?:r)? , greedy *)
| Grp (n : nat) (r : regex).                   (* capturing group number n *)

Definition plus (cs : cset) : regex := Rep cs 1 None.
Definition star (cs : cset) : regex := Rep cs 0 None.
Definition opt_char (c : ascii) : regex := Rep (CChar c) 0 (Some 1).

Fixpoint cat (rs : list regex) : regex :=
  match rs with
  | [] => Lit ""
  | [r] => r
  | r :: rs' => Cat r (cat rs')
  end.

Fixpoint alt (rs : list regex) : regex :=
  match rs with
  | [] => Lit ""
  | [r] => r
  | r :: rs' => Or r (alt rs')
  end.

(** Captured text per group number. *)
Definition groups := list (nat * string).

Fixpoint get_group (n : nat) (g : groups) : option string :=
  match g with
  | [] => None
  | (m, v) :: g' => if Nat.eqb m n then Some v else get_group n g'
  end.

Definition set_group (n : nat) (v : string) (g : groups) : groups :=
  (n, v) :: g.

(** What was read between the input [s] and its suffix [s']. *)
Definition consumed (s s' : string) : string :=
  PyStr.take (String.length s - String.length s') s.

Section Matcher.
Context {R : Type}.

(** Greedy repetition of a class: take as many characters as allowed, then
    give them back one at a time until the continuation accepts. *)
Fixpoint rep (p : ascii -> bool) (lo : nat) (hi : option nat) (s : string)
             (k : string -> option R) : option R :=
  let stop := if Nat.eqb lo 0 then k s else None in
  match s with
  | EmptyString => stop
  | String c s' =>
      if p c && match hi with Some 0 => false | _ => true end
      then match rep p (Nat.pred lo) (option_map Nat.pred hi) s' k with
           | Some x => Some x
           | None => stop
           end
      else stop
  end.

Fixpoint rmatch (r : regex) (s : string) (g : groups)
                (k : string -> groups -> option R) : option R :=
  match r with
  | Lit l =>
      match PyStr.strip_prefix l s with
      | Some s' => k s' g
      | None => None
      end
  | Rep cs lo hi => rep (in_cset cs) lo hi s (fun s' => k s' g)
  | Cat r1 r2 => rmatch r1 s g (fun s1 g1 => rmatch r2 s1 g1 k)
  | Or r1 r2 =>
      match rmatch r1 s g k with
      | Some x => Some x
      | None => rmatch r2 s g k
      end
  | Opt r1 =>
      match rmatch r1 s g k with
      | Some x => Some x
      | None => k s g
      end
  | Grp n r1 =>
      rmatch r1 s g (fun s1 g1 => k s1 (set_group n (consumed s s1) g1))
  end.

End Matcher.

(** A match object: where the match starts, its text ([group(0)]) and the
    text of the groups that took part. *)
Record Match := mkMatch {
  m_start : nat;
  m_text : string;
  m_groups : groups
}.

Definition match_at (r : regex) (s : string) (pos : nat) : option Match :=
  rmatch r s [] (fun s' g => Some (mkMatch pos (consumed s s') g)).

(** [re.search]: the match at the leftmost position that has one. *)
Fixpoint search_from (r : regex) (s : string) (pos : nat) : option Match :=
  match match_at r s pos with
  | Some m => Some m
  | None =>
      match s with
      | EmptyString => None
      | String _ s' => search_from r s' (S pos)
      end
  end.

Definition search (r : regex) (s : string) : option Match :=
  search_from r s 0.

(** [len(match.groups())]: the number of capturing groups of the pattern. *)
Fixpoint ngroups (r : regex) : nat :=
  match r with
  | Lit _ | Rep _ _ _ => 0
  | Cat r1 r2 | Or r1 r2 => ngroups r1 + ngroups r2
  | Opt r1 => ngroups r1
  | Grp _ r1 => S (ngroups r1)
  end.

(** [match.group(n)] for [n >= 1]; [None] when the group took no part. *)
Definition group (n : nat) (m : Match) : option string :=
  get_group n (m_groups m).

(** Group [n] takes part in every match of [r]. *)
Fixpoint binds (n : nat) (r : regex) : bool :=
  match r with
  | Lit _ | Rep _ _ _ | Opt _ => false
  | Cat r1 r2 => binds n r1 || binds n r2
  | Or r1 r2 => binds n r1 && binds n r2
  | Grp m r1 => Nat.eqb m n || binds n r1
  end.

Definition bound (n : nat) (g : groups) : Prop := get_group n g <> None.

End WithUnicode.

End re.

(* ------------------------------------------------------------------ *)
(** ** Returning or raising *)

(** An exception: whether it is an instance of [Exception], the class the
    handlers of the two modules name, and its text [str(e)], which is all
    they read of it.  [KeyboardInterrupt], [SystemExit] and
    [asyncio.CancelledError] derive from [BaseException] only. *)
Record exc := mkExc {
  is_Exception : bool;
  str_of : string
}.

(** The result of a Python call: the value returned, or the exception
    raised. *)
Inductive outcome (A : Type) :=
| Ret (a : A)
| Raise (e : exc).
Arguments Ret {A} a.
Arguments Raise {A} e.

(** A coroutine over a store of state [St]. *)
Definition M (St A : Type) : Type := St -> outcome A * St.

Definition ret {St A} (a : A) : M St A := fun s => (Ret a, s).

Definition bind {St A B} (m : M St A) (f : A -> M St B) : M St B :=
  fun s => match m s with
           | (Ret a, s') => f a s'
           | (Raise e, s') => (Raise e, s')
           end.

(** [try: body / except Exception as e: handler(str(e))]: an exception that
    is no instance of [Exception] is not caught. *)
Definition try_except {St A} (body : M St A) (handler : string -> M St A)
  : M St A :=
  fun s => match body s with
           | (Ret a, s') => (Ret a, s')
           | (Raise e, s') =>
               if is_Exception e then handler (str_of e) s'
               else (Raise e, s')
           end.

(** A call that touches no store. *)
Definition lift {St A} (o : outcome A) : M St A := fun s => (o, s).

(* ------------------------------------------------------------------ *)
(** ** class VoiceCommand *)

(** The dataclass; [confidence] keeps its default 1.0 everywhere and is never
    read, so it is left out. *)
Record VoiceCommand := mkVoiceCommand {
  action : string;
  entity : string;
  parameters : PyDict.dict;
  raw_text : string
}.

(* ------------------------------------------------------------------ *)
(** ** class VoiceCommandParser *)

Module VoiceCommandParser.
Import re.

Section WithUnicode.
Context {U : PyStr.Unicode}.

Definition ws : regex := plus CSpace.          (* \s+ *)
Definition rest (n : nat) : regex := Grp n (plus CDot).   (* (.+) *)
Definition words (l : list string) : regex := alt (map Lit l).

(** The lists of [self.task_patterns], one per operation. *)
Definition create_patterns : list regex :=
  [ (* (?:create|add|make|new)\s+(?:a\s+)?task\s+(?:to\s+)?(.+) *)
    cat [words ["create"; "add"; "make"; "new"]; ws;
         Opt (cat [Lit "a"; ws]); Lit "task"; ws;
         Opt (cat [Lit "to"; ws]); rest 1];
    (* (?:i\s+)?(?:need\s+to|want\s+to|have\s+to)\s+(.+) *)
    cat [Opt (cat [Lit "i"; ws]);
         alt [cat [Lit "need"; ws; Lit "to"];
              cat [Lit "want"; ws; Lit "to"];
              cat [Lit "have"; ws; Lit "to"]]; ws; rest 1];
    (* (?:remind\s+me\s+to\s+)?(.+) *)
    Cat (Opt (cat [Lit "remind"; ws; Lit "me"; ws; Lit "to"; ws])) (rest 1);
    (* (?:schedule|plan)\s+(?:to\s+)?(.+) *)
    cat [words ["schedule"; "plan"]; ws; Opt (cat [Lit "to"; ws]); rest 1]
  ].

Definition complete_patterns : list regex :=
  [ (* (?:complete|finish|done|finished)\s+(?:task\s+)?(.+) *)
    cat [words ["complete"; "finish"; "done"; "finished"]; ws;
         Opt (cat [Lit "task"; ws]); rest 1];
    (* (?:mark\s+)?(.+)\s+(?:as\s+)?(?:complete|done|finished) *)
    cat [Opt (cat [Lit "mark"; ws]); rest 1; ws;
         Opt (cat [Lit "as"; ws]); words ["complete"; "done"; "finished"]];
    (* i(?:\'ve|\s+have)\s+(?:completed|finished|done)\s+(.+) *)
    cat [Lit "i"; alt [Lit "'ve"; cat [ws; Lit "have"]]; ws;
         words ["completed"; "finished"; "done"]; ws; rest 1]
  ].

Definition list_patterns : list regex :=
  [ (* (?:show|list|display|get)\s+(?:my\s+)?tasks? *)
    cat [words ["show"; "list"; "display"; "get"]; ws;
         Opt (cat [Lit "my"; ws]); Lit "task"; opt_char "s"];
    (* what\s+(?:do\s+i\s+)?(?:need\s+to\s+)?(?:do|complete) *)
    cat [Lit "what"; ws; Opt (cat [Lit "do"; ws; Lit "i"; ws]);
         Opt (cat [Lit "need"; ws; Lit "to"; ws]); words ["do"; "complete"]];
    (* (?:what\s+are\s+)?my\s+(?:pending|active|current)\s+tasks? *)
    cat [Opt (cat [Lit "what"; ws; Lit "are"; ws]); Lit "my"; ws;
         words ["pending"; "active"; "current"]; ws;
         Lit "task"; opt_char "s"]
  ].

Definition delete_patterns : list regex :=
  [ (* (?:delete|remove|cancel)\s+(?:task\s+)?(.+) *)
    cat [words ["delete"; "remove"; "cancel"]; ws;
         Opt (cat [Lit "task"; ws]); rest 1];
    (* (?:get\s+rid\s+of|eliminate)\s+(.+) *)
    cat [alt [cat [Lit "get"; ws; Lit "rid"; ws; Lit "of"]; Lit "eliminate"];
         ws; rest 1]
  ].

Definition update_patterns : list regex :=
  [ (* (?:update|modify|change)\s+(?:task\s+)?(.+) *)
    cat [words ["update"; "modify"; "change"]; ws;
         Opt (cat [Lit "task"; ws]); rest 1];
    (* (?:set|make)\s+(.+)\s+(?:to\s+)?(.+) *)
    cat [words ["set"; "make"]; ws; rest 1; ws;
         Opt (cat [Lit "to"; ws]); rest 2]
  ].

(** [self.task_patterns], in the order the dict literal lists its keys. *)
Definition task_patterns : list (string * list regex) :=
  [ ("create", create_patterns);
    ("complete", complete_patterns);
    ("list", list_patterns);
    ("delete", delete_patterns);
    ("update", update_patterns) ].

(** [self.time_patterns] *)
Definition time_patterns : list regex :=
  [ (* (?:by|before|until)\s+(tomorrow|next\s+week|friday|end\s+of\s+day) *)
    cat [words ["by"; "before"; "until"]; ws;
         Grp 1 (alt [Lit "tomorrow"; cat [Lit "next"; ws; Lit "week"];
                     Lit "friday";
                     cat [Lit "end"; ws; Lit "of"; ws; Lit "day"]])];
    (* (?:in|within)\s+(\d+)\s+(hours?|days?|weeks?|months?) *)
    cat [words ["in"; "within"]; ws; Grp 1 (plus CDigit); ws;
         Grp 2 (alt [cat [Lit "hour"; opt_char "s"];
                     cat [Lit "day"; opt_char "s"];
                     cat [Lit "week"; opt_char "s"];
                     cat [Lit "month"; opt_char "s"]])];
    (* (?:at|on)\s+(\d{1,2}(?::\d{2})?\s*(?:am|pm)?) *)
    cat [words ["at"; "on"]; ws;
         Grp 1 (cat [Rep CDigit 1 (Some 2);
                     Opt (cat [Lit ":"; Rep CDigit 2 (Some 2)]);
                     star CSpace;
                     Opt (words ["am"; "pm"])])]
  ].

(** The loop over [self.time_patterns]: every pattern that matches assigns
    [parameters["time_reference"]]; the loop has no [break]. *)
Definition extract_time_reference (text : string) (parameters : PyDict.dict)
  : PyDict.dict :=
  fold_left
    (fun parameters pattern =>
       match search pattern text with
       | Some m => PyDict.set "time_reference" (m_text m) parameters
       | None => parameters
       end)
    time_patterns parameters.

Definition _extract_parameters (text operation entity : string) : PyDict.dict :=
  let parameters : PyDict.dict := [] in
  (* Extract time references *)
  let parameters := extract_time_reference text parameters in
  (* Extract priority indicators *)
  let parameters :=
    if PyStr.any_in ["urgent"; "asap"; "immediately"; "high priority"] text
    then PyDict.set "priority" "high" parameters
    else if PyStr.any_in ["low"; "whenever"; "someday"] text
    then PyDict.set "priority" "low" parameters
    else PyDict.set "priority" "medium" parameters in
  (* Extract context clues *)
  let parameters :=
    if PyStr.contains "work" text || PyStr.contains "job" text
    then PyDict.set "context" "work" parameters
    else if PyStr.contains "personal" text
    then PyDict.set "context" "personal" parameters
    else parameters in
  parameters.

(** The body of [if match:].  [match.group(1)] is [None] for a group that
    took no part in the match, and [None.strip()] raises. *)
Definition command_of_match (operation text original_text : string)
    (pattern : regex) (m : Match) : outcome VoiceCommand :=
  match (if 1 <=? ngroups pattern then group 1 m else Some "")%nat with
  | None => Raise (mkExc true "'NoneType' object has no attribute 'strip'")
  | Some captured =>
      let description := PyStr.strip captured in
      let extracted := _extract_parameters text operation description in
      Ret (mkVoiceCommand operation "task"
             (PyDict.update
                [("operation", operation); ("description", description)]
                extracted)
             original_text)
  end.

(** [for pattern in patterns:] *)
Fixpoint scan_patterns (operation : string) (patterns : list regex)
    (text original_text : string) : option (outcome VoiceCommand) :=
  match patterns with
  | [] => None
  | pattern :: patterns' =>
      match search pattern text with
      | Some m => Some (command_of_match operation text original_text pattern m)
      | None => scan_patterns operation patterns' text original_text
      end
  end.

(** [for operation, patterns in self.task_patterns.items():] *)
Fixpoint scan_table (table : list (string * list regex))
    (text original_text : string) : option (outcome VoiceCommand) :=
  match table with
  | [] => None
  | (operation, patterns) :: table' =>
      match scan_patterns operation patterns text original_text with
      | Some r => Some r
      | None => scan_table table' text original_text
      end
  end.

Definition parse_command (text : string) : outcome VoiceCommand :=
  let text := PyStr.strip (PyStr.lower text) in
  let original_text := text in
  match scan_table task_patterns text original_text with
  | Some r => r
  | None =>
      (* Default fallback *)
      Ret (mkVoiceCommand "unknown" "unknown"
             [("raw_text", original_text)] original_text)
  end.

End WithUnicode.

End VoiceCommandParser.

(* ------------------------------------------------------------------ *)
(** ** The task store as the processor sees it

    [ClaraTaskProcessor] only calls four coroutines of [self.task_manager].
    Any object that offers them can stand there; each may return a string or
    raise, and may change the store. *)

Module Store.

Record t (St : Type) := mk {
  create_task : string -> string -> M St string;  (* description, priority *)
  complete_task : string -> M St string;          (* task_identifier *)
  list_tasks : M St string;
  delete_task : string -> M St string             (* task_identifier *)
}.
Arguments create_task {St} _ _ _ _.
Arguments complete_task {St} _ _ _.
Arguments list_tasks {St} _ _.
Arguments delete_task {St} _ _ _.

End Store.

(* ------------------------------------------------------------------ *)
(** ** class TaskManager *)

Module TaskManager.

Section WithUnicode.
Context {U : PyStr.Unicode}.

(** A task dict.  The key ["completed_at"] is absent until [complete_task]
    assigns it: [None] stands for the absent key. *)
Record Task := mkTask {
  id : string;
  description : string;
  priority : string;
  status : string;
  created_at : Z;
  completed_at : option Z;
  due_date : option Z;
  voice_created : bool
}.

(** [self.tasks_db]: a dict from task id to task, in insertion order.  Its
    only assignment, [self.tasks_db[task_id] = task], stores a task under its
    own ["id"], so the dict is kept as the list of its values and the key of
    an entry is its [id]. *)
Definition tasks_db := list Task.

(** [identifier in self.tasks_db] and [self.tasks_db[identifier]] *)
Definition db_get (k : string) (db : tasks_db) : option Task :=
  find (fun t => String.eqb (id t) k) db.

(** [self.tasks_db[task["id"]] = task] *)
Fixpoint db_set (task : Task) (db : tasks_db) : tasks_db :=
  match db with
  | [] => [task]
  | t :: db' =>
      if String.eqb (id t) (id task) then task :: db' else t :: db_set task db'
  end.

(** [del self.tasks_db[k]] *)
Definition db_del (k : string) (db : tasks_db) : tasks_db :=
  filter (fun t => negb (String.eqb (id t) k)) db.

(** Assignments to the fields of the task stored under [k]: the dict that
    [_find_task] returned is the one the store holds. *)
Fixpoint db_mutate (k : string) (f : Task -> Task) (db : tasks_db) : tasks_db :=
  match db with
  | [] => []
  | t :: db' =>
      if String.eqb (id t) k then f t :: db' else t :: db_mutate k f db'
  end.

Definition _find_task (identifier : string) (db : tasks_db) : option Task :=
  (* Try exact ID match first *)
  match db_get identifier db with
  | Some task => Some task
  | None =>
      (* Try partial description match *)
      find (fun task =>
              PyStr.contains (PyStr.lower identifier)
                             (PyStr.lower (description task)))
           db
  end.

(** [task_id] is the value of [str(uuid.uuid4())] and [now] the value of
    [datetime.now()] in this call. *)
Definition create_task (task_id : string) (now : Z)
    (description priority : string) (due_date : option Z) (db : tasks_db)
  : string * tasks_db :=
  let task := mkTask task_id description priority "pending" now None
                     due_date true in
  ("Task created: " ++ description, db_set task db).

Definition mark_completed (now : Z) (task : Task) : Task :=
  mkTask (id task) (description task) (priority task)
         "completed" (created_at task) (Some now)
         (due_date task) (voice_created task).

Definition complete_task (now : Z) (task_identifier : string) (db : tasks_db)
  : string * tasks_db :=
  match _find_task task_identifier db with
  | None => ("Task not found: " ++ task_identifier, db)
  | Some task =>
      ("Marked as completed: " ++ description task,
       db_mutate (id task) (mark_completed now) db)
  end.

(** [priority_order.get(p, 1)] *)
Definition priority_rank (p : string) : nat :=
  if String.eqb p "high" then 0
  else if String.eqb p "medium" then 1
  else if String.eqb p "low" then 2
  else 1.

(** The sort key [(priority_order.get(t["priority"], 1), t["created_at"])]. *)
Definition sort_key (t : Task) : nat * Z :=
  (priority_rank (priority t), created_at t).

(** [a < b] on such tuples. *)
Definition key_lt (a b : nat * Z) : bool :=
  (fst a <? fst b)%nat || ((fst a =? fst b)%nat && (snd a <? snd b)%Z).

(** [tasks.sort(key=...)] is a stable sort: insertion from the right, each
    task going behind the tasks whose key is strictly smaller. *)
Fixpoint insert_task (t : Task) (sorted : list Task) : list Task :=
  match sorted with
  | [] => [t]
  | x :: sorted' =>
      if key_lt (sort_key x) (sort_key t)
      then x :: insert_task t sorted'
      else t :: sorted
  end.

Definition sort_tasks (tasks : list Task) : list Task :=
  fold_right insert_task [] tasks.

Definition task_line (task : Task) : string :=
  let status_icon :=
    if String.eqb (status task) "completed" then "✅" else "⏳" in
  status_icon ++ " " ++ description task ++ " (" ++ priority task
              ++ " priority)".

Definition list_tasks (status_filter : option string) (db : tasks_db)
  : string :=
  let tasks : list Task := db in
  let tasks :=
    match status_filter with
    | Some wanted =>
        if String.eqb wanted "" then tasks
        else filter (fun t => String.eqb (status t) wanted) tasks
    | None => tasks
    end in
  match tasks with
  | [] => "No tasks found."
  | _ =>
      let tasks := sort_tasks tasks in
      "You have " ++ PyStr.str_of_nat (List.length tasks) ++ " tasks:"
        ++ String "010" (PyStr.join (String "010" "") (map task_line tasks))
  end.

Definition delete_task (task_identifier : string) (db : tasks_db)
  : string * tasks_db :=
  match _find_task task_identifier db with
  | None => ("Task not found: " ++ task_identifier, db)
  | Some task =>
      let task_id := id task in
      ("Deleted task: " ++ description task, db_del task_id db)
  end.

(** What [uuid.uuid4()] and [datetime.now()] give during one command. *)
Record Runtime := mkRuntime {
  uuid4 : string;
  now : Z
}.

(** The [TaskManager] behind the processor's four calls.  None of its
    coroutines raises. *)
Definition store (rt : Runtime) : Store.t tasks_db :=
  Store.mk tasks_db
    (fun description priority db =>
       let '(r, db') :=
         create_task (uuid4 rt) (now rt) description priority None db in
       (Ret r, db'))
    (fun task_identifier db =>
       let '(r, db') := complete_task (now rt) task_identifier db in
       (Ret r, db'))
    (fun db => (Ret (list_tasks None db), db))
    (fun task_identifier db =>
       let '(r, db') := delete_task task_identifier db in (Ret r, db')).

(** One call of a public coroutine of the store. *)
Inductive call :=
| CreateTask (task_id : string) (now : Z) (description priority : string)
             (due_date : option Z)
| CompleteTask (now : Z) (task_identifier : string)
| ListTasks (status_filter : option string)
| DeleteTask (task_identifier : string).

Definition step (c : call) (db : tasks_db) : string * tasks_db :=
  match c with
  | CreateTask task_id now description priority due_date =>
      create_task task_id now description priority due_date db
  | CompleteTask now task_identifier => complete_task now task_identifier db
  | ListTasks status_filter => (list_tasks status_filter db, db)
  | DeleteTask task_identifier => delete_task task_identifier db
  end.

(** The store after a sequence of calls; [TaskManager()] starts from [{}]. *)
Definition run (calls : list call) (db : tasks_db) : tasks_db :=
  fold_left (fun db c => snd (step c db)) calls db.

End WithUnicode.

End TaskManager.

(* ------------------------------------------------------------------ *)
(** ** class ClaraTaskProcessor *)

Module ClaraTaskProcessor.

Section WithUnicode.
Context {U : PyStr.Unicode}.

Notation "x <- m ;; k" := (bind m (fun x => k))
  (at level 61, m at next level, right associativity).

Definition clarification : string :=
  "I need more details about what task you'd like me to create or manage.".

Definition guidance_tasks : string :=
  "I can help you manage tasks. Try saying 'create a task to [description]' or 'show my tasks'.".
Definition guidance_files : string :=
  "I can help with file operations. Try saying 'open [filename]' or 'read [document]'.".
Definition guidance_web : string :=
  "I can help with web browsing. Try saying 'open [website]' or 'search for [topic]'.".
Definition guidance_generic : string :=
  "I'm not sure what you'd like me to do. I can help with tasks, files, browsing, and applications. Try being more specific!".

Definition apology (e : string) : string :=
  "Sorry, I encountered an error processing your request: " ++ e.

Definition _handle_unknown_command (command_text : string) : string :=
  if PyStr.any_in ["task"; "todo"; "remind"] (PyStr.lower command_text)
  then guidance_tasks
  else if PyStr.any_in ["file"; "document"; "open"; "read"]
                       (PyStr.lower command_text)
  then guidance_files
  else if PyStr.any_in ["browser"; "web"; "search"; "google"]
                       (PyStr.lower command_text)
  then guidance_web
  else guidance_generic.

Section Processor.
Context {St : Type}.
(** [self.task_manager] *)
Variable task_manager : Store.t St.

(** [operation == name], where [operation] may be [None]. *)
Definition op_is (operation : option string) (name : string) : bool :=
  match operation with
  | Some op => String.eqb op name
  | None => false
  end.

Definition _process_task_command (command : VoiceCommand) : M St string :=
  let operation := PyDict.get "operation" (parameters command) in
  let description :=
    match PyDict.get "description" (parameters command) with
    | Some d => d
    | None => ""
    end in
  if String.eqb description "" then ret clarification
  else if op_is operation "create" then
    let priority :=
      match PyDict.get "priority" (parameters command) with
      | Some p => p
      | None => "medium"
      end in
    Store.create_task task_manager description priority
  else if op_is operation "complete" then
    Store.complete_task task_manager description
  else if op_is operation "list" then
    Store.list_tasks task_manager
  else if op_is operation "delete" then
    Store.delete_task task_manager description
  else if op_is operation "update" then
    ret "Task updates aren't implemented yet. I can create, complete, list, and delete tasks."
  else
    ret ("Unknown task operation: "
           ++ match operation with Some op => op | None => "None" end).

Definition process_voice_command (command_text : string) : M St string :=
  try_except
    ((* Parse the command *)
     command <- lift (VoiceCommandParser.parse_command command_text) ;;
     if String.eqb (action command) "unknown"
     then ret (_handle_unknown_command command_text)
     else if String.eqb (entity command) "task"
     then _process_task_command command
     else ret ("I understand you want to " ++ action command ++ " "
                 ++ entity command
                 ++ ", but that feature isn't fully implemented yet."))
    (fun e => ret (apology e)).

End Processor.

(** A store that only counts the calls it receives. *)
Definition counting_store : Store.t nat :=
  Store.mk nat
    (fun _ _ n => (Ret "created", S n))
    (fun _ n => (Ret "completed", S n))
    (fun n => (Ret "listed", S n))
    (fun _ n => (Ret "deleted", S n)).

(** A store whose every call raises [e]. *)
Definition failing_store (e : exc) : Store.t unit :=
  Store.mk unit
    (fun _ _ s => (Raise e, s))
    (fun _ s => (Raise e, s))
    (fun s => (Raise e, s))
    (fun _ s => (Raise e, s)).

End WithUnicode.

End ClaraTaskProcessor.

(* ------------------------------------------------------------------ *)
(** ** The other entry points of the module *)

(** [VoiceServiceIntegrator]: one processor, kept for all requests. *)
Module VoiceServiceIntegrator.

Section WithUnicode.
Context {U : PyStr.Unicode}.

Definition process_voice_request (rt : TaskManager.Runtime)
    (request_text : string) : M TaskManager.tasks_db string :=
  ClaraTaskProcessor.process_voice_command (TaskManager.store rt) request_text.

End WithUnicode.

End VoiceServiceIntegrator.

(** [process_voice_command_standalone]: a new [ClaraTaskProcessor], so a new
    and empty [tasks_db], for every command; the processor is dropped when
    the call returns. *)
Section Standalone.
Context {U : PyStr.Unicode}.


End Standalone.

(* ------------------------------------------------------------------ *)
(** ** The callers in [py_backend/clara_voice_agent.py] *)

Module ClaraVoiceAgent.

Section WithUnicode.
Context {U : PyStr.Unicode}.

(** The placeholder [ChatMessage] and the roles of [ChatRole]. *)
Record ChatMessage := mkChatMessage {
  role : string;
  content : string
}.

Definition USER : string := "user".
Definition ASSISTANT : string := "assistant".

Definition command_indicators : list string :=
  [ "create"; "make"; "add"; "new"; "task"; "todo";
    "complete"; "finish"; "done"; "delete"; "remove";
    "show"; "list"; "get"; "find"; "search";
    "open"; "launch"; "start"; "close"; "stop";
    "read"; "write"; "save"; "load"; "file" ].

Definition _is_command (text : string) : bool :=
  let text_lower := PyStr.lower text in
  PyStr.any_in command_indicators text_lower.

Section Agent.
Context {St : Type}.
(** [self.task_processor]: the processor with its task store, or [None] when
    [config.enable_task_management] is off. *)
Variable task_processor : option (Store.t St).
(** [self.config.enable_conversation_context] *)
Variable enable_conversation_context : bool.

(** The state is the store of the processor and
    [session.context.messages]. *)
Definition _process_task_command (command : string)
  : M (St * list ChatMessage) string :=
  fun st =>
    let '(s, messages) := st in
    match task_processor with
    | None => (Ret "Task management is not available.", (s, messages))
    | Some task_manager =>
        match ClaraTaskProcessor.process_voice_command task_manager command s
        with
        | (Ret result, s') =>
            (* Update conversation context *)
            let messages' :=
              if enable_conversation_context
              then (messages ++
                    [mkChatMessage ASSISTANT
                       ("Executed task command: " ++ command
                          ++ String "010" ("Result: " ++ result))])%list
              else messages in
            (Ret result, (s', messages'))
        | (Raise e, s') =>
            if is_Exception e
            then (Ret ("Error processing task: " ++ str_of e), (s', messages))
            else (Raise e, (s', messages))
        end
    end.

End Agent.

(** The module-level [process_voice_command(command, context)]: a new
    processor for the call, and a handler of its own. *)
Definition process_voice_command (rt : TaskManager.Runtime) (command : string)
  : outcome string :=
  match ClaraTaskProcessor.process_voice_command (TaskManager.store rt)
          command [] with
  | (Ret result, _) => Ret result
  | (Raise e, _) => if is_Exception e then Ret ("Error: " ++ str_of e)
                    else Raise e
  end.

End WithUnicode.

End ClaraVoiceAgent.

(* ------------------------------------------------------------------ *)
(** ** Vocabulary of the statements *)

Section Vocabulary.
Context {U : PyStr.Unicode}.

(** The first and the last defined element of a list of optional values. *)
Fixpoint first_some {A} (l : list (option A)) : option A :=
  match l with
  | [] => None
  | Some a :: _ => Some a
  | None :: l' => first_some l'
  end.

Fixpoint last_some {A} (l : list (option A)) : option A :=
  match l with
  | [] => None
  | o :: l' =>
      match last_some l' with
      | Some a => Some a
      | None => o
      end
  end.

(** For each temporal pattern, in list order, the full text of its match in
    [text], if it has one. *)
Definition time_matches (text : string) : list (option string) :=
  map (fun pattern => option_map re.m_text (re.search pattern text))
      VoiceCommandParser.time_patterns.

(** The text [parse_command] works on: [text.lower().strip()]. *)
Definition normalized (text : string) : string :=
  PyStr.strip (PyStr.lower text).

(** The two priority vocabularies. *)
Definition high_words : list string :=
  ["urgent"; "asap"; "immediately"; "high priority"].
Definition low_words : list string := ["low"; "whenever"; "someday"].

(** C4 as it is written: the stored time reference is the match of the
    first temporal pattern that matches. *)
Definition first_match_is_stored (text : string) : Prop :=
  PyDict.get "time_reference"
    (VoiceCommandParser._extract_parameters text "create" text)
  = first_some (time_matches text).

(** The description of [task] contains [identifier], case not counting. *)
Definition matches (identifier : string) (task : TaskManager.Task) : bool :=
  PyStr.contains (PyStr.lower identifier)
                 (PyStr.lower (TaskManager.description task)).

(** [a] may stand before [b] in a listing: higher priority first, and among
    equal priorities the earlier creation first. *)
Definition listed_before (a b : TaskManager.Task) : Prop :=
  (TaskManager.priority_rank (TaskManager.priority a)
   < TaskManager.priority_rank (TaskManager.priority b))%nat
  \/ (TaskManager.priority_rank (TaskManager.priority a)
      = TaskManager.priority_rank (TaskManager.priority b)
      /\ (TaskManager.created_at a <= TaskManager.created_at b)%Z).

(** The text [list_tasks] returns for a non-empty list of tasks in the
    order they are shown. *)
Definition listing (tasks : list TaskManager.Task) : string :=
  "You have " ++ PyStr.str_of_nat (List.length tasks) ++ " tasks:"
    ++ String "010"
         (PyStr.join (String "010" "") (map TaskManager.task_line tasks)).

(** The invariant of task records. *)
Definition completed_at_iff_completed (task : TaskManager.Task) : Prop :=
  TaskManager.completed_at task <> None
  <-> TaskManager.status task = "completed".

(** The round trip of C8 from the store [db]: after [create_task] and
    [complete_task] on the same description, [list_tasks] shows the created
    task as completed; after [delete_task] it shows it no more, and
    [complete_task] answers that there is no such task. *)
Definition round_trip (db : TaskManager.tasks_db) (task_id : string)
    (t1 t2 t3 : Z) (description priority : string) : Prop :=
  let db1 :=
    snd (TaskManager.create_task task_id t1 description priority None db) in
  let db2 := snd (TaskManager.complete_task t2 description db1) in
  let db3 := snd (TaskManager.delete_task description db2) in
  (TaskManager.list_tasks None db2 = listing (TaskManager.sort_tasks db2) /\
   exists task,
     In task (TaskManager.sort_tasks db2) /\
     TaskManager.id task = task_id /\
     TaskManager.description task = description /\
     TaskManager.priority task = priority /\
     TaskManager.status task = "completed")
  /\ (forall task,
        In task (TaskManager.sort_tasks db3) -> TaskManager.id task <> task_id)
  /\ fst (TaskManager.complete_task t3 description db3)
     = "Task not found: " ++ description.

(** A [list] command as the parser builds it: the patterns of [list] have
    no capturing group, so the description is empty. *)
Definition bare_list_command : VoiceCommand :=
  mkVoiceCommand "list" "task"
    [("operation", "list"); ("description", ""); ("priority", "medium")]
    "show my tasks".

(** [s] starts with a character that is not white space. *)
Definition headed (s : string) : Prop :=
  exists c r, s = String c r /\ PyStr.is_space c = false.

(** [s] is empty or starts with a character that is not white space. *)
Definition headed_word (w : string) : bool :=
  match w with
  | EmptyString => false
  | String a _ => negb (PyStr.is_space a)
  end.

(** [s] has no white space at its end. *)
Definition clean_end (s : string) : Prop := PyStr.rstrip s = s.

(** Group 1 of the match starts with a character that is not white space. *)
Definition group_headed (m : re.Match) : Prop :=
  exists cap, re.group 1 m = Some cap /\ headed cap.

(** The pattern is a sequence whose last element is [\s+]. *)
Fixpoint ends_ws (r : re.regex) : bool :=
  match r with
  | re.Rep re.CSpace 1 None => true
  | re.Cat _ r2 => ends_ws r2
  | _ => false
  end.

(** The pattern ends with [\s+(.+)] or with [\s+(?:...\s+)?(.+)], group 1
    being the [(.+)]. *)
Inductive lands_capture : re.regex -> Prop :=
| lands_ws :
    lands_capture (re.Cat VoiceCommandParser.ws (VoiceCommandParser.rest 1))
| lands_ws_opt (b : re.regex) :
    ends_ws b = true ->
    lands_capture
      (re.Cat VoiceCommandParser.ws
         (re.Cat (re.Opt b) (VoiceCommandParser.rest 1)))
| lands_cat (r1 r2 : re.regex) :
    lands_capture r2 -> lands_capture (re.Cat r1 r2).

(** The priority [_extract_parameters] reads off a normalized text. *)
Definition priority_of (text : string) : string :=
  if PyStr.any_in high_words text then "high"
  else if PyStr.any_in low_words text then "low"
  else "medium".

(** The task [create_task] stores. *)
Definition new_task (task_id : string) (now : Z)
    (description priority : string) : TaskManager.Task :=
  TaskManager.mkTask task_id description priority "pending" now None None true.

(** [t] has the sort key [key]. *)
Definition has_key (key : nat * Z) (t : TaskManager.Task) : bool :=
  (fst (TaskManager.sort_key t) =? fst key)%nat
  && (snd (TaskManager.sort_key t) =? snd key)%Z.

(** The continuation [match_at] gives the matcher. *)
Definition final (pos : nat) (s0 : string)
  : string -> re.groups -> option re.Match :=
  fun s' g => Some (re.mkMatch pos (re.consumed s0 s') g).

(** The store of a [VoiceServiceIntegrator] after it served the requests,
    each with what [uuid4] and [now] gave during it. *)
Definition serve (requests : list (TaskManager.Runtime * string))
    (db : TaskManager.tasks_db) : TaskManager.tasks_db :=
  fold_left
    (fun db request =>
       snd (VoiceServiceIntegrator.process_voice_request
              (fst request) (snd request) db))
    requests db.

(** The message [ClaraVoiceAgent._process_task_command] adds to the
    conversation. *)
Definition task_message (command result : string)
  : ClaraVoiceAgent.ChatMessage :=
  ClaraVoiceAgent.mkChatMessage ClaraVoiceAgent.ASSISTANT
    ("Executed task command: " ++ command
       ++ String "010" ("Result: " ++ result)).

(** [s] is the end of [t], and [v] is a piece of [t]. *)
Definition suffix_of (t s : string) : Prop := exists pre, t = pre ++ s.

Definition part_of (t v : string) : Prop :=
  exists pre post, t = pre ++ v ++ post.

(** Every captured text is a piece of [t]. *)
Definition groups_part (t : string) (g : re.groups) : Prop :=
  forall n v, re.get_group n g = Some v -> part_of t v.

(** [s] has no newline. *)
Fixpoint single_line (s : string) : bool :=
  match s with
  | EmptyString => true
  | String c s' => negb (Ascii.eqb c "010"%char) && single_line s'
  end.

(** A call to the store, made in the state [s], raises [e] and leaves the
    state [s']. *)
Definition raised_by_store {St} (task_manager : Store.t St) (s : St)
    (e : exc) (s' : St) : Prop :=
  (exists d p, Store.create_task task_manager d p s = (Raise e, s')) \/
  (exists d, Store.complete_task task_manager d s = (Raise e, s')) \/
  Store.list_tasks task_manager s = (Raise e, s') \/
  (exists d, Store.delete_task task_manager d s = (Raise e, s')).

(** The store raises instances of [Exception] only. *)
Definition raises_Exception_only {St} (task_manager : Store.t St) : Prop :=
  forall s e s', raised_by_store task_manager s e s' -> is_Exception e = true.

(** [asyncio.CancelledError()], raised in a coroutine that is cancelled while
    it awaits; its text is empty. *)
Definition CancelledError : exc := mkExc false "".

(** U+00A0 NO-BREAK SPACE, U+00C9 and U+00E9 (E and e with acute accent). *)
Definition NBSP : string := String "160" "".
Definition E_acute : string := String "201" "".
Definition e_acute : string := String "233" "".

End Vocabulary.

(* ================================================================== *)
(** * Properties *)

(** Case analysis on every condition of the goal. *)
Ltac case_ifs :=
  repeat match goal with
         | |- context [if ?b then _ else _] => destruct b
         end.

(* ------------------------------------------------------------------ *)
(** ** Strings *)

Section StringFacts.
Context {U : PyStr.Unicode}.
Import PyStr.

Lemma lstrip_head (s : string) (c : ascii) (r : string) :
  lstrip s = String c r -> is_space c = false.
Proof.
  induction s as [|a s IH]; simpl; [discriminate|].
  destruct (is_space a) eqn:Ea; [exact IH|].
  intros H; injection H as -> _; exact Ea.
Qed.

Lemma rstrip_head (s : string) (c : ascii) (r : string) :
  rstrip s = String c r -> exists s', s = String c s'.
Proof.
  destruct s as [|a s]; simpl; [discriminate|].
  destruct (rstrip s); [destruct (is_space a)|]; try discriminate;
    intros H; injection H as -> _; eauto.
Qed.

Lemma strip_head (s : string) (c : ascii) (r : string) :
  strip s = String c r -> is_space c = false.
Proof.
  unfold strip; intros H.
  destruct (rstrip_head _ _ _ H) as [s' Hs'].
  exact (lstrip_head _ _ _ Hs').
Qed.

Lemma space_newline : is_space "010"%char = true.
Proof. reflexivity. Qed.

Lemma not_space_dot (c : ascii) :
  is_space c = false -> re.in_cset re.CDot c = true.
Proof.
  intros H; simpl.
  destruct (Ascii.eqb c "010"%char) eqn:E; [|reflexivity].
  apply Ascii.eqb_eq in E; subst c. rewrite space_newline in H; discriminate.
Qed.

Lemma prefix_refl (s : string) : prefix s s = true.
Proof.
  induction s as [|a s IH]; simpl; [reflexivity|].
  destruct (ascii_dec a a); [exact IH|congruence].
Qed.

Lemma contains_refl (s : string) : contains s s = true.
Proof.
  destruct s as [|a s]; simpl; [reflexivity|].
  destruct (ascii_dec a a); [|congruence]. now rewrite prefix_refl.
Qed.

End StringFacts.

(* ------------------------------------------------------------------ *)
(** ** The matcher *)

Section MatcherFacts.
Context {U : PyStr.Unicode}.
Import re.

(** A repetition that may stop at once succeeds whenever its continuation
    always does. *)
Lemma rep_zero_total {R} (p : ascii -> bool) (hi : option nat) (s : string)
    (k : string -> option R) :
  (forall s', k s' <> None) -> rep p 0 hi s k <> None.
Proof.
  intros Hk. destruct s as [|c s]; simpl; [apply Hk|].
  destruct (p c && _); [|apply Hk].
  destruct (rep p 0 (option_map Nat.pred hi) s k); [discriminate|apply Hk].
Qed.

Lemma rep_one_total {R} (p : ascii -> bool) (c : ascii) (s : string)
    (k : string -> option R) :
  p c = true -> (forall s', k s' <> None) ->
  rep p 1 None (String c s) k <> None.
Proof.
  intros Hc Hk. simpl. rewrite Hc. simpl.
  pose proof (rep_zero_total p None s k Hk) as H.
  destruct (rep p 0 None s k); [discriminate|contradiction].
Qed.

(** Whatever a repetition returns, its continuation returned. *)
Lemma rep_inv {R} (p : ascii -> bool) (s : string) :
  forall lo hi (k : string -> option R) x,
    rep p lo hi s k = Some x -> exists s', k s' = Some x.
Proof.
  induction s as [|c s IH]; intros lo hi k x; simpl.
  - destruct (Nat.eqb lo 0); [eauto|discriminate].
  - destruct (p c && _).
    + destruct (rep p (Nat.pred lo) (option_map Nat.pred hi) s k) eqn:E.
      * intros H; injection H as <-. eapply IH; eassumption.
      * destruct (Nat.eqb lo 0); [eauto|discriminate].
    + destruct (Nat.eqb lo 0); [eauto|discriminate].
Qed.

Lemma bound_set_group (n m : nat) (v : string) (g : groups) :
  m = n \/ bound n g -> bound n (set_group m v g).
Proof.
  unfold bound, set_group; simpl. intros [->|H].
  - rewrite Nat.eqb_refl; discriminate.
  - destruct (Nat.eqb m n); [discriminate|exact H].
Qed.

(** A successful match hands its continuation a group table in which the
    groups that [r] binds, and those bound before, are bound. *)
Lemma rmatch_inv {R} (n : nat) (r : regex) :
  forall s g (k : string -> groups -> option R) x,
    rmatch r s g k = Some x ->
    exists s' g', k s' g' = Some x /\
                  (binds n r = true \/ bound n g -> bound n g').
Proof.
  induction r as [l|cs lo hi|r1 IH1 r2 IH2|r1 IH1 r2 IH2|r1 IH1|m r1 IH1];
    intros s g k x; simpl.
  - destruct (PyStr.strip_prefix l s); [|discriminate].
    intros H; exists s0, g; split; [exact H|]. intros [?|?]; [discriminate|assumption].
  - intros H. apply rep_inv in H as [s' H]. exists s', g; split; [exact H|].
    intros [?|?]; [discriminate|assumption].
  - intros H. apply IH1 in H as (s1 & g1 & H & B1).
    apply IH2 in H as (s2 & g2 & H & B2).
    exists s2, g2; split; [exact H|].
    intros [Hb|Hb]; apply B2.
    + apply orb_true_iff in Hb as [Hb|Hb]; [right; apply B1|]; auto.
    + right; apply B1; auto.
  - destruct (rmatch r1 s g k) eqn:E.
    + intros H; injection H as <-. apply IH1 in E as (s1 & g1 & H & B1).
      exists s1, g1; split; [exact H|].
      intros [Hb|Hb]; apply B1; [apply andb_true_iff in Hb as [? _]|]; auto.
    + intros H. apply IH2 in H as (s2 & g2 & H & B2).
      exists s2, g2; split; [exact H|].
      intros [Hb|Hb]; apply B2; [apply andb_true_iff in Hb as [_ ?]|]; auto.
  - destruct (rmatch r1 s g k) eqn:E.
    + intros H; injection H as <-. apply IH1 in E as (s1 & g1 & H & B1).
      exists s1, g1; split; [exact H|].
      intros [Hb|Hb]; [discriminate|apply B1; auto].
    + intros H. exists s, g; split; [exact H|].
      intros [?|?]; [discriminate|assumption].
  - intros H. apply IH1 in H as (s1 & g1 & H & B1).
    eexists _, _; split; [exact H|].
    intros [Hb|Hb]; apply bound_set_group.
    + apply orb_true_iff in Hb as [Hb|Hb];
        [left; now apply Nat.eqb_eq|right; apply B1; auto].
    + right; apply B1; auto.
Qed.

Lemma match_at_binds (n : nat) (r : regex) (s : string) (pos : nat) (m : Match) :
  binds n r = true -> match_at r s pos = Some m -> group n m <> None.
Proof.
  unfold match_at; intros Hb H.
  apply (rmatch_inv n) in H as (s' & g' & H & B).
  injection H as <-. apply B; auto.
Qed.

Lemma search_from_binds (n : nat) (r : regex) (s : string) :
  forall pos m, binds n r = true -> search_from r s pos = Some m ->
                group n m <> None.
Proof.
  induction s as [|c s IH]; intros pos m Hb; simpl.
  - destruct (match_at r "" pos) eqn:E; [|discriminate].
    intros H; injection H as <-. eapply match_at_binds; eassumption.
  - destruct (match_at r (String c s) pos) eqn:E.
    + intros H; injection H as <-. eapply match_at_binds; eassumption.
    + apply IH, Hb.
Qed.

Lemma search_binds (n : nat) (r : regex) (s : string) (m : Match) :
  binds n r = true -> search r s = Some m -> group n m <> None.
Proof. apply search_from_binds. Qed.

(** A match at the first position is what [search] returns. *)
Lemma search_at_start (r : regex) (s : string) :
  match_at r s 0 <> None -> search r s <> None.
Proof.
  unfold search. destruct s; simpl; destruct (match_at r _ 0); congruence.
Qed.

End MatcherFacts.

(* ------------------------------------------------------------------ *)
(** ** Dicts *)

Section DictFacts.
Context {U : PyStr.Unicode}.
Import PyDict.

Lemma get_set_same (k v : string) (d : dict) : get k (set k v d) = Some v.
Proof.
  induction d as [|[k' v'] d IH]; simpl.
  - now rewrite String.eqb_refl.
  - destruct (String.eqb k' k) eqn:E; simpl; rewrite E; auto.
Qed.

Lemma get_set_other (k k' v : string) (d : dict) :
  k' <> k -> get k (set k' v d) = get k d.
Proof.
  intros Hne. induction d as [|[k0 v0] d IH]; simpl.
  - apply String.eqb_neq in Hne. now rewrite Hne.
  - destruct (String.eqb k0 k') eqn:E; simpl.
    + apply String.eqb_eq in E; subst k0.
      apply String.eqb_neq in Hne. now rewrite Hne.
    + now rewrite IH.
Qed.

Lemma keys_set_in (k k' v : string) (d : dict) :
  In k (keys (set k' v d)) -> k = k' \/ In k (keys d).
Proof.
  induction d as [|[k0 v0] d IH]; simpl.
  - intros [<-|[]]; auto.
  - destruct (String.eqb k0 k') eqn:E; simpl; intros [H|H]; auto.
    destruct (IH H); auto.
Qed.

Lemma keys_set_nodup (k v : string) (d : dict) :
  NoDup (keys d) -> NoDup (keys (set k v d)).
Proof.
  induction d as [|[k0 v0] d IH]; simpl; intros H.
  - constructor; [intros []|constructor].
  - inversion H as [|? ? Hnin Hnd]; subst.
    destruct (String.eqb k0 k) eqn:E; simpl.
    + constructor; assumption.
    + constructor; [|auto].
      intros Hin. apply keys_set_in in Hin as [->|Hin]; [|contradiction].
      rewrite String.eqb_refl in E; discriminate.
Qed.

Lemma get_not_in (k : string) (d : dict) : ~ In k (keys d) -> get k d = None.
Proof.
  induction d as [|[k0 v0] d IH]; simpl; [reflexivity|].
  intros H. destruct (String.eqb k0 k) eqn:E.
  - apply String.eqb_eq in E; subst. exfalso; auto.
  - apply IH; auto.
Qed.

(** Merging: the keys of [more] win, the others keep the value of [d]. *)
Lemma get_update (k : string) (more : dict) :
  NoDup (keys more) ->
  forall d, get k (update d more)
            = match get k more with Some v => Some v | None => get k d end.
Proof.
  unfold update.
  induction more as [|[k1 v1] more IH]; simpl; intros Hnd d; [reflexivity|].
  inversion Hnd as [|? ? Hnin Hnd']; subst.
  rewrite (IH Hnd').
  destruct (String.eqb k1 k) eqn:E.
  - apply String.eqb_eq in E; subst k1.
    rewrite (get_not_in _ _ Hnin). apply get_set_same.
  - apply String.eqb_neq in E. now rewrite (get_set_other _ _ _ _ E).
Qed.

End DictFacts.

(* ------------------------------------------------------------------ *)
(** ** The parser *)

Section ParserFacts.
Context {U : PyStr.Unicode}.
Import VoiceCommandParser.

Lemma extract_time_reference_get (text : string) (pats : list re.regex) :
  forall ps,
    PyDict.get "time_reference"
      (fold_left
         (fun parameters pattern =>
            match re.search pattern text with
            | Some m => PyDict.set "time_reference" (re.m_text m) parameters
            | None => parameters
            end) pats ps)
    = match last_some
              (map (fun p => option_map re.m_text (re.search p text)) pats)
      with
      | Some x => Some x
      | None => PyDict.get "time_reference" ps
      end.
Proof.
  induction pats as [|p pats IH]; intros ps; simpl; [reflexivity|].
  rewrite IH.
  destruct (last_some _); [reflexivity|].
  destruct (re.search p text); simpl; [apply get_set_same|reflexivity].
Qed.

Lemma extract_time_reference_nodup (text : string) (ps : PyDict.dict) :
  NoDup (PyDict.keys ps) -> NoDup (PyDict.keys (extract_time_reference text ps)).
Proof.
  unfold extract_time_reference. generalize time_patterns as pats.
  intros pats; revert ps.
  induction pats as [|p pats IH]; intros ps H; simpl; [exact H|].
  apply IH. destruct (re.search p text); [apply keys_set_nodup|]; exact H.
Qed.

Lemma extract_parameters_nodup (text operation description : string) :
  NoDup (PyDict.keys (_extract_parameters text operation description)).
Proof.
  unfold _extract_parameters.
  assert (H : NoDup (PyDict.keys (extract_time_reference text []))).
  { apply extract_time_reference_nodup. constructor. }
  case_ifs; repeat apply keys_set_nodup; exact H.
Qed.

Lemma extract_parameters_time (text operation description : string) :
  PyDict.get "time_reference" (_extract_parameters text operation description)
  = last_some (time_matches text).
Proof.
  unfold _extract_parameters.
  assert (H : PyDict.get "time_reference" (extract_time_reference text [])
              = last_some (time_matches text)).
  { unfold extract_time_reference, time_matches.
    rewrite extract_time_reference_get. now destruct (last_some _). }
  case_ifs;
    repeat (rewrite get_set_other by discriminate); exact H.
Qed.

Lemma extract_parameters_priority (text operation description : string) :
  PyDict.get "priority" (_extract_parameters text operation description)
  = Some (if PyStr.any_in high_words text then "high"
          else if PyStr.any_in low_words text then "low"
          else "medium").
Proof.
  unfold _extract_parameters, high_words, low_words.
  destruct (PyStr.any_in ["urgent"; _; _; _] text);
    [|destruct (PyStr.any_in ["low"; _; _] text)];
    case_ifs;
    repeat (rewrite get_set_other by discriminate); apply get_set_same.
Qed.

(** What a returned command of [command_of_match] looks like. *)
Lemma command_of_match_ret (operation text original : string)
    (pattern : re.regex) (m : re.Match) (cmd : VoiceCommand) :
  command_of_match operation text original pattern m = Ret cmd ->
  action cmd = operation /\ entity cmd = "task" /\ raw_text cmd = original /\
  exists description,
    parameters cmd
    = PyDict.update [("operation", operation); ("description", description)]
        (_extract_parameters text operation description).
Proof.
  unfold command_of_match.
  destruct (if (1 <=? re.ngroups pattern)%nat then _ else _); [|discriminate].
  intros H; injection H as <-; simpl. repeat split; eauto.
Qed.

Lemma command_of_match_binds (operation text original : string)
    (pattern : re.regex) (m : re.Match) :
  re.binds 1 pattern = true -> re.search pattern text = Some m ->
  exists cmd, command_of_match operation text original pattern m = Ret cmd.
Proof.
  intros Hb Hs. unfold command_of_match.
  pose proof (search_binds 1 pattern text m Hb Hs) as Hg.
  destruct (1 <=? re.ngroups pattern)%nat; [|eauto].
  destruct (re.group 1 m); [eauto|contradiction].
Qed.

Lemma scan_patterns_inv (operation text original : string)
    (patterns : list re.regex) (r : outcome VoiceCommand) :
  scan_patterns operation patterns text original = Some r ->
  exists pattern m,
    In pattern patterns /\ re.search pattern text = Some m /\
    r = command_of_match operation text original pattern m.
Proof.
  induction patterns as [|p ps IH]; simpl; [discriminate|].
  destruct (re.search p text) as [m|] eqn:E.
  - intros H; injection H as <-. exists p, m; auto.
  - intros H. destruct (IH H) as (p' & m' & Hin & Hs & Hr).
    exists p', m'; auto.
Qed.

Lemma scan_table_inv (text original : string)
    (table : list (string * list re.regex)) (r : outcome VoiceCommand) :
  scan_table table text original = Some r ->
  exists operation patterns pattern m,
    In (operation, patterns) table /\ In pattern patterns /\
    re.search pattern text = Some m /\
    r = command_of_match operation text original pattern m.
Proof.
  induction table as [|[op ps] table IH]; simpl; [discriminate|].
  destruct (scan_patterns op ps text original) as [r'|] eqn:E.
  - intros H; injection H as <-.
    destruct (scan_patterns_inv _ _ _ _ _ E) as (p & m & Hin & Hs & Hr).
    exists op, ps, p, m; auto.
  - intros H. destruct (IH H) as (op' & ps' & p & m & Hin & Hin' & Hs & Hr).
    exists op', ps', p, m; auto.
Qed.

(** A list with a matching pattern stops the scan. *)
Lemma scan_patterns_some (operation text original : string)
    (patterns : list re.regex) :
  (exists pattern, In pattern patterns /\ re.search pattern text <> None) ->
  scan_patterns operation patterns text original <> None.
Proof.
  intros (p & Hin & Hs).
  induction patterns as [|q qs IH]; simpl; [destruct Hin|].
  destruct (re.search q text) eqn:E; [discriminate|].
  destruct Hin as [->|Hin]; [contradiction|auto].
Qed.

(** The third [create] pattern matches every text that starts with a
    character other than white space. *)
Lemma remind_pattern_matches (c : ascii) (s : string) :
  PyStr.is_space c = false ->
  exists pattern,
    nth_error create_patterns 2 = Some pattern /\
    re.search pattern (String c s) <> None.
Proof.
  intros Hc. eexists; split; [reflexivity|].
  apply search_at_start. unfold re.match_at.
  cbn [re.rmatch].
  match goal with
  | |- match ?x with _ => _ end <> None => destruct x; [discriminate|]
  end.
  unfold rest, re.plus. cbn [re.rmatch].
  apply rep_one_total; [now apply not_space_dot|discriminate].
Qed.

(** Every non-empty normalized text is a [create] command. *)
Lemma scan_table_create (c : ascii) (s : string) :
  PyStr.is_space c = false ->
  exists cmd,
    scan_table task_patterns (String c s) (String c s) = Some (Ret cmd) /\
    action cmd = "create".
Proof.
  intros Hc. set (t := String c s).
  assert (Hsome : scan_patterns "create" create_patterns t t <> None).
  { apply scan_patterns_some.
    destruct (remind_pattern_matches c s Hc) as (p & Hn & Hs).
    exists p; split; [eapply nth_error_In; exact Hn|exact Hs]. }
  change (scan_table task_patterns t t)
    with (match scan_patterns "create" create_patterns t t with
          | Some r => Some r
          | None => scan_table (tl task_patterns) t t
          end).
  destruct (scan_patterns "create" create_patterns t t) as [r|] eqn:E;
    [|contradiction].
  destruct (scan_patterns_inv _ _ _ _ _ E) as (p & m & Hin & Hs & ->).
  assert (Hb : re.binds 1 p = true).
  { revert Hin. clear.
    assert (H : forallb (re.binds 1) create_patterns = true) by reflexivity.
    rewrite forallb_forall in H. apply H. }
  destruct (command_of_match_binds "create" t t p m Hb Hs) as [cmd Hcmd].
  exists cmd; split; [now rewrite Hcmd|].
  now apply command_of_match_ret in Hcmd as [-> _].
Qed.

(** C2: every input whose lower-cased, trimmed form is not empty parses to a
    command of action ["create"]: the third pattern of the [create]
    operation matches it, so the scan stops among the [create] patterns,
    before any pattern of another operation is tried; the action is
    ["unknown"] exactly when that form is empty. *)
Theorem parse_command_create_unless_empty (text : string) :
  (normalized text <> "" ->
   (exists pattern, nth_error create_patterns 2 = Some pattern /\
                    re.search pattern (normalized text) <> None) /\
   scan_patterns "create" create_patterns (normalized text) (normalized text)
     <> None /\
   exists cmd, parse_command text = Ret cmd /\ action cmd = "create") /\
  ((exists cmd, parse_command text = Ret cmd /\ action cmd = "unknown")
   <-> normalized text = "").
Proof.
  unfold parse_command. fold (normalized text).
  destruct (normalized text) as [|c s] eqn:Et.
  - split; [congruence|].
    split; [reflexivity|]. intros _. eexists; split; reflexivity.
  - pose proof (strip_head _ _ _ Et) as Hc.
    destruct (scan_table_create c s Hc) as (cmd & Hscan & Hact).
    split.
    + intros _. split; [now apply remind_pattern_matches|]. split.
      * apply scan_patterns_some.
        destruct (remind_pattern_matches c s Hc) as (p & Hn & Hs).
        exists p; split; [eapply nth_error_In; exact Hn|exact Hs].
      * exists cmd. now rewrite Hscan.
    + split; [|discriminate].
      intros (cmd' & Hp & Hu). rewrite Hscan in Hp.
      injection Hp as <-. rewrite Hact in Hu. discriminate.
Qed.

End ParserFacts.

Section ParserFactsLatin1.
Import VoiceCommandParser.
#[local] Existing Instance PyStr.Latin1.

Lemma parse_command_create_unless_empty_witness :
  normalized "Remind me to buy milk" <> "" /\
  exists cmd, parse_command "Remind me to buy milk" = Ret cmd
              /\ action cmd = "create".
Proof.
  assert (H : normalized "Remind me to buy milk" <> "")
    by (vm_compute; discriminate).
  split; [exact H|].
  exact (proj2 (proj2 (proj1 (parse_command_create_unless_empty
                                "Remind me to buy milk") H))).
Defined.

End ParserFactsLatin1.

Section ParserClaims.
Context {U : PyStr.Unicode}.
Import VoiceCommandParser.

(** A command that [parse_command] returns with a known action carries the
    parameters extracted from the normalized text. *)
Lemma parse_command_parameters (text : string) (cmd : VoiceCommand) :
  parse_command text = Ret cmd -> action cmd <> "unknown" ->
  exists description,
    parameters cmd
    = PyDict.update
        [("operation", action cmd); ("description", description)]
        (_extract_parameters (normalized text) (action cmd) description).
Proof.
  unfold parse_command. fold (normalized text).
  destruct (scan_table task_patterns _ _) as [r|] eqn:E.
  - intros -> _.
    destruct (scan_table_inv _ _ _ _ E) as (op & ps & p & m & _ & _ & _ & Hr).
    symmetry in Hr.
    apply command_of_match_ret in Hr as (Ha & _ & _ & d & Hp).
    exists d. now rewrite Ha.
  - intros H; injection H as <-. simpl. congruence.
Qed.

(** C5: for every utterance that some intent pattern matches, the priority
    parameter is ["high"] when the normalized text contains a word of the
    high vocabulary, otherwise ["low"] when it contains a word of the low
    vocabulary, otherwise ["medium"]; in particular ["urgent"] anywhere in
    the text gives ["high"], whatever the matched intent. *)
Theorem priority_high_before_low (text : string) (cmd : VoiceCommand) :
  parse_command text = Ret cmd -> action cmd <> "unknown" ->
  PyDict.get "priority" (parameters cmd)
  = Some (if PyStr.any_in high_words (normalized text) then "high"
          else if PyStr.any_in low_words (normalized text) then "low"
          else "medium")
  /\ (PyStr.contains "urgent" (normalized text) = true ->
      PyDict.get "priority" (parameters cmd) = Some "high").
Proof.
  intros Hp Ha.
  destruct (parse_command_parameters text cmd Hp Ha) as [d Hd].
  assert (H : PyDict.get "priority" (parameters cmd)
              = Some (if PyStr.any_in high_words (normalized text) then "high"
                      else if PyStr.any_in low_words (normalized text)
                      then "low" else "medium")).
  { rewrite Hd, get_update by apply extract_parameters_nodup.
    now rewrite extract_parameters_priority. }
  split; [exact H|].
  intros Hu. rewrite H. unfold high_words, PyStr.any_in. simpl existsb.
  now rewrite Hu.
Qed.

(** C4, amended: the temporal patterns are scanned in list order, every
    pattern that matches overwrites the time reference with the full text of
    its match, so the text kept is that of the last pattern that matches; the
    parameters hold at most one time reference. *)
Theorem last_match_is_stored (text operation description : string) :
  PyDict.get "time_reference" (_extract_parameters text operation description)
  = last_some (time_matches text)
  /\ (count_occ string_dec
        (PyDict.keys (_extract_parameters text operation description))
        "time_reference" <= 1)%nat.
Proof.
  split; [apply extract_parameters_time|].
  apply NoDup_count_occ, extract_parameters_nodup.
Qed.

End ParserClaims.

Section ParserClaimsLatin1.
Import VoiceCommandParser.
#[local] Existing Instance PyStr.Latin1.

Lemma priority_high_before_low_witness :
  exists cmd,
    parse_command "Finish the slow report, URGENT" = Ret cmd /\
    action cmd <> "unknown" /\
    PyStr.any_in low_words (normalized "Finish the slow report, URGENT") = true /\
    PyDict.get "priority" (parameters cmd) = Some "high".
Proof.
  eexists. split; [vm_compute; reflexivity|].
  split; [vm_compute; discriminate|].
  split; [vm_compute; reflexivity|].
  refine (proj2 (priority_high_before_low
                   "Finish the slow report, URGENT" _ _ _) _).
  - vm_compute; reflexivity.
  - vm_compute; discriminate.
  - vm_compute; reflexivity.
Defined.

(** C4, as written, fails: in "call bob by tomorrow at 5pm" the first and the
    third pattern match, and the text kept is the third's. *)
Lemma first_match_is_stored_fails :
  first_some (time_matches "call bob by tomorrow at 5pm") = Some "by tomorrow"
  /\ PyDict.get "time_reference"
       (_extract_parameters "call bob by tomorrow at 5pm" "create"
          "call bob by tomorrow at 5pm") = Some "at 5pm"
  /\ ~ first_match_is_stored "call bob by tomorrow at 5pm".
Proof.
  split; [vm_compute; reflexivity|].
  split; [vm_compute; reflexivity|].
  unfold first_match_is_stored. vm_compute. discriminate.
Qed.

End ParserClaimsLatin1.

(* ------------------------------------------------------------------ *)
(** ** The task store *)

Section StoreFacts.
Context {U : PyStr.Unicode}.
Import TaskManager.


Lemma find_all_false {A} (f : A -> bool) (l : list A) :
  (forall y, In y l -> f y = false) -> find f l = None.
Proof.
  induction l as [|a l IH]; simpl; intros H; [reflexivity|].
  rewrite (H a) by auto. apply IH; auto.
Qed.

(** When [x] is the only element that satisfies [f], [find] returns it. *)
Lemma find_only {A} (f : A -> bool) (l : list A) (x : A) :
  In x l -> f x = true -> (forall y, In y l -> f y = true -> y = x) ->
  find f l = Some x.
Proof.
  induction l as [|a l IH]; simpl; intros Hin Hx Hu; [destruct Hin|].
  destruct (f a) eqn:Ea.
  - f_equal. apply Hu; auto.
  - destruct Hin as [->|Hin]; [congruence|]. apply IH; auto.
Qed.

Lemma db_set_in (task t : Task) (db : tasks_db) :
  In t (db_set task db) -> t = task \/ In t db.
Proof.
  induction db as [|x db IH]; simpl.
  - intros [<-|[]]; auto.
  - destruct (String.eqb (id x) (id task)); simpl; intros [H|H]; auto.
    destruct (IH H); auto.
Qed.

Lemma db_set_in_new (task : Task) (db : tasks_db) : In task (db_set task db).
Proof.
  induction db as [|x db IH]; simpl; [auto|].
  destruct (String.eqb (id x) (id task)); simpl; auto.
Qed.

Lemma db_mutate_in (k : string) (f : Task -> Task) (t : Task) (db : tasks_db) :
  In t (db_mutate k f db) -> In t db \/ exists t0, In t0 db /\ t = f t0.
Proof.
  induction db as [|x db IH]; simpl; [tauto|].
  destruct (String.eqb (id x) k); simpl; intros [H|H]; eauto.
  destruct (IH H) as [?|(t0 & ? & ?)]; eauto.
Qed.

Lemma db_del_in (k : string) (t : Task) (db : tasks_db) :
  In t (db_del k db) -> In t db /\ id t <> k.
Proof.
  unfold db_del. rewrite filter_In. intros [Hin Hk]. split; [exact Hin|].
  intros <-. rewrite String.eqb_refl in Hk. discriminate.
Qed.

(** Mutating the task just stored is storing the mutated task. *)
Lemma db_mutate_set (task : Task) (f : Task -> Task) (db : tasks_db) :
  db_mutate (id task) f (db_set task db) = db_set (f task) db \/
  id (f task) <> id task.
Proof.
  destruct (string_dec (id (f task)) (id task)) as [E|E]; [left|now right].
  induction db as [|x db IH]; simpl.
  - now rewrite String.eqb_refl.
  - rewrite E. destruct (String.eqb (id x) (id task)) eqn:Ex; simpl.
    + now rewrite String.eqb_refl.
    + rewrite Ex. now rewrite IH.
Qed.

Lemma db_del_set (task : Task) (db : tasks_db) :
  db_del (id task) (db_set task db) = db_del (id task) db.
Proof.
  induction db as [|x db IH]; simpl.
  - now rewrite String.eqb_refl.
  - destruct (String.eqb (id x) (id task)) eqn:Ex; simpl.
    + now rewrite String.eqb_refl.
    + rewrite Ex. simpl. now rewrite IH.
Qed.

Lemma task_eq_or (a b : Task) : a = b \/ a <> b.
Proof.
  assert (D : {a = b} + {a <> b}).
  { repeat decide equality; try apply Z.eq_dec; apply string_dec. }
  destruct D; auto.
Qed.

(** Lookup in a store where only [task] answers to [identifier]. *)
Lemma find_task_only (identifier : string) (task : Task) (db : tasks_db) :
  In task db -> matches identifier task = true ->
  (forall t, In t db -> t <> task ->
             id t <> identifier /\ matches identifier t = false) ->
  _find_task identifier db = Some task.
Proof.
  intros Hin Hm Hothers. unfold _find_task.
  destruct (db_get identifier db) as [t|] eqn:E.
  - unfold db_get in E. apply find_some in E as [Ht Hid].
    apply String.eqb_eq in Hid.
    destruct (task_eq_or t task) as [->|Hne]; [reflexivity|].
    destruct (Hothers t Ht Hne) as [H _]. contradiction.
  - apply find_only; auto.
    intros t Ht Hmt. destruct (task_eq_or t task) as [->|Hne]; [reflexivity|].
    destruct (Hothers t Ht Hne) as [_ H]. unfold matches in H. congruence.
Qed.

Lemma find_task_none (identifier : string) (db : tasks_db) :
  (forall t, In t db -> id t <> identifier) ->
  (forall t, In t db -> matches identifier t = false) ->
  _find_task identifier db = None.
Proof.
  intros Hid Hm. unfold _find_task, db_get.
  rewrite find_all_false; [now apply find_all_false|].
  intros t Ht. apply String.eqb_neq. auto.
Qed.

End StoreFacts.

(* ------------------------------------------------------------------ *)
(** ** Listing *)

Section ListingFacts.
Context {U : PyStr.Unicode}.
Import TaskManager.

Lemma key_lt_true (x t : Task) :
  key_lt (sort_key x) (sort_key t) = true -> listed_before x t.
Proof.
  unfold key_lt, sort_key, listed_before; simpl. intros H.
  apply orb_true_iff in H as [H|H].
  - left. now apply Nat.ltb_lt.
  - apply andb_true_iff in H as [H1 H2]. right.
    apply Nat.eqb_eq in H1. apply Z.ltb_lt in H2. split; [exact H1|lia].
Qed.

Lemma key_lt_false (x t : Task) :
  key_lt (sort_key x) (sort_key t) = false -> listed_before t x.
Proof.
  unfold key_lt, sort_key, listed_before; simpl. intros H.
  apply orb_false_iff in H as [H1 H2].
  apply Nat.ltb_ge in H1. apply andb_false_iff in H2 as [H2|H2].
  - apply Nat.eqb_neq in H2. left. lia.
  - apply Z.ltb_ge in H2.
    destruct (Nat.eq_dec (priority_rank (priority t))
                         (priority_rank (priority x))); [right|left]; lia.
Qed.

Lemma listed_before_trans (a b c : Task) :
  listed_before a b -> listed_before b c -> listed_before a c.
Proof. unfold listed_before. lia. Qed.

Lemma insert_task_perm (t : Task) (l : list Task) :
  Permutation (t :: l) (insert_task t l).
Proof.
  induction l as [|x l IH]; simpl; [reflexivity|].
  destruct (key_lt (sort_key x) (sort_key t)); [|reflexivity].
  rewrite perm_swap. now constructor.
Qed.

Lemma sort_tasks_perm (l : list Task) : Permutation l (sort_tasks l).
Proof.
  induction l as [|t l IH]; simpl; [constructor|].
  rewrite <- insert_task_perm. now constructor.
Qed.

Lemma insert_task_sorted (t : Task) (l : list Task) :
  StronglySorted listed_before l ->
  StronglySorted listed_before (insert_task t l).
Proof.
  induction 1 as [|x l Hs IH Hx]; simpl.
  - repeat constructor.
  - destruct (key_lt (sort_key x) (sort_key t)) eqn:E.
    + constructor; [exact IH|].
      apply key_lt_true in E.
      rewrite <- (insert_task_perm t l). constructor; assumption.
    + apply key_lt_false in E.
      constructor; [constructor; assumption|].
      constructor; [exact E|].
      rewrite Forall_forall in Hx |- *. intros y Hy.
      eapply listed_before_trans; eauto.
Qed.

Lemma sort_tasks_sorted (l : list Task) :
  StronglySorted listed_before (sort_tasks l).
Proof.
  induction l as [|t l IH]; simpl; [constructor|].
  now apply insert_task_sorted.
Qed.

Lemma list_tasks_nonempty (db : tasks_db) :
  db <> [] -> list_tasks None db = listing (sort_tasks db).
Proof. destruct db; [congruence|reflexivity]. Qed.

(** C6: on the empty store [list_tasks] returns exactly "No tasks found.";
    on any other store it lists all the tasks, each once, highest priority
    first (high, then medium, then low) and, among equal priorities, in
    ascending order of creation; a store that holds A (high, created later),
    B (low) and C (high, created earlier) is listed as C, A, B. *)
Theorem list_tasks_priority_then_creation :
  list_tasks None [] = "No tasks found."
  /\ (priority_rank "high" < priority_rank "medium" < priority_rank "low")%nat
  /\ (forall db : tasks_db,
        db <> [] ->
        exists shown,
          list_tasks None db = listing shown /\
          Permutation db shown /\ StronglySorted listed_before shown)
  /\ (forall A B C : Task,
        priority A = "high" -> priority B = "low" -> priority C = "high" ->
        (created_at C < created_at A)%Z ->
        list_tasks None [A; B; C] = listing [C; A; B]).
Proof.
  split; [reflexivity|].
  split; [cbv; lia|].
  split.
  - intros db Hne. exists (sort_tasks db).
    split; [now apply list_tasks_nonempty|].
    split; [apply sort_tasks_perm|apply sort_tasks_sorted].
  - intros A B C HA HB HC Hlt.
    rewrite list_tasks_nonempty by discriminate. f_equal.
    apply Z.ltb_lt in Hlt.
    unfold sort_tasks; simpl. unfold key_lt, sort_key; simpl.
    rewrite HB, HC; simpl. unfold key_lt, sort_key; simpl.
    rewrite HA, HB, HC; simpl. now rewrite Hlt.
Qed.

End ListingFacts.

Section ListingFactsLatin1.
Import TaskManager.
#[local] Existing Instance PyStr.Latin1.

Lemma list_tasks_priority_then_creation_witness :
  list_tasks None
    [ mkTask "a" "A" "high" "pending" 1 None None true;
      mkTask "b" "B" "low" "pending" 2 None None true;
      mkTask "c" "C" "high" "pending" 0 None None true ]
  = listing
      [ mkTask "c" "C" "high" "pending" 0 None None true;
        mkTask "a" "A" "high" "pending" 1 None None true;
        mkTask "b" "B" "low" "pending" 2 None None true ].
Proof.
  apply (proj2 (proj2 (proj2 list_tasks_priority_then_creation)));
    simpl; try reflexivity; lia.
Defined.

End ListingFactsLatin1.

(* ------------------------------------------------------------------ *)
(** ** Lookup *)

Section LookupFacts.
Context {U : PyStr.Unicode}.
Import TaskManager.



End LookupFacts.

Section LookupFactsLatin1.
Import TaskManager.
#[local] Existing Instance PyStr.Latin1.


End LookupFactsLatin1.

(* ------------------------------------------------------------------ *)
(** ** Round trip and invariant of the store *)

Section RoundTrip.
Context {U : PyStr.Unicode}.
Import TaskManager.

(** C8, amended: in a store where no task has the description as its id and
    no task's description contains it, [create_task] followed by
    [complete_task] on that description makes [list_tasks] show the created
    task as completed; [delete_task] then removes it from the listing, and a
    further [complete_task] answers "Task not found". *)
Theorem round_trip_when_description_is_new (db : tasks_db) (task_id : string)
    (t1 t2 t3 : Z) (description priority : string) :
  (forall t, In t db -> id t <> description) ->
  (forall t, In t db -> matches description t = false) ->
  round_trip db task_id t1 t2 t3 description priority.
Proof.
  intros Hid Hm. unfold round_trip, create_task; simpl snd.
  set (new := mkTask task_id description priority "pending" t1 None None true).
  set (done := mkTask task_id description priority "completed" t1 (Some t2)
                      None true).
  assert (Hfind : forall task : Task,
             TaskManager.description task = description ->
             _find_task description (db_set task db) = Some task).
  { intros task Hd. apply find_task_only.
    - apply db_set_in_new.
    - unfold matches. rewrite Hd. apply contains_refl.
    - intros t Ht Hne. apply db_set_in in Ht as [->|Ht]; [congruence|].
      split; auto. }
  assert (E2 : snd (complete_task t2 description (db_set new db))
               = db_set done db).
  { unfold complete_task. rewrite (Hfind new eq_refl); simpl snd.
    destruct (db_mutate_set new (mark_completed t2) db) as [H|Hne];
      [exact H|]. exfalso; apply Hne; reflexivity. }
  rewrite E2.
  assert (E3 : snd (delete_task description (db_set done db))
               = db_del task_id db).
  { unfold delete_task. rewrite (Hfind done eq_refl); simpl snd.
    apply (db_del_set done). }
  rewrite E3.
  split; [split|split].
  - apply list_tasks_nonempty. intros E.
    pose proof (db_set_in_new done db) as Hin. rewrite E in Hin. destruct Hin.
  - exists done. split; [|repeat split].
    eapply Permutation_in; [apply sort_tasks_perm|apply db_set_in_new].
  - intros task Hin.
    eapply Permutation_in in Hin; [|symmetry; apply sort_tasks_perm].
    now apply db_del_in in Hin.
  - assert (Hnone : _find_task description (db_del task_id db) = None).
    { apply find_task_none.
      - intros t Ht. apply db_del_in in Ht as [Ht _]. auto.
      - intros t Ht. apply db_del_in in Ht as [Ht _]. auto. }
    unfold complete_task. now rewrite Hnone.
Qed.

Lemma step_keeps_invariant (c : call) (db : tasks_db) :
  (forall t, In t db -> completed_at_iff_completed t) ->
  forall t, In t (snd (step c db)) -> completed_at_iff_completed t.
Proof.
  intros Hinv t.
  destruct c as [tid tnow d p due|tnow ident|f|ident]; simpl.
  - intros Hin. apply db_set_in in Hin as [->|Hin]; [|auto].
    unfold completed_at_iff_completed; simpl. split; [congruence|discriminate].
  - unfold complete_task. destruct (_find_task ident db); simpl; [|auto].
    intros Hin. apply db_mutate_in in Hin as [Hin|(old & _ & ->)]; [auto|].
    unfold completed_at_iff_completed; simpl. split; [reflexivity|discriminate].
  - auto.
  - unfold delete_task. destruct (_find_task ident db); simpl; [|auto].
    intros Hin. apply db_del_in in Hin as [Hin _]. auto.
Qed.

Lemma run_keeps_invariant (calls : list call) :
  forall db,
    (forall t, In t db -> completed_at_iff_completed t) ->
    forall t, In t (run calls db) -> completed_at_iff_completed t.
Proof.
  induction calls as [|c calls IH]; intros db Hinv; simpl; [exact Hinv|].
  apply IH. now apply step_keeps_invariant.
Qed.

(** C10: in every store reached from the empty one by calls of
    [create_task], [complete_task], [list_tasks] and [delete_task], a task
    has its completed-at field set exactly when its status is completed. *)
Theorem reachable_completed_at_iff_completed (calls : list call) (task : Task) :
  In task (run calls []) -> completed_at_iff_completed task.
Proof.
  apply run_keeps_invariant. intros t [].
Qed.

(** The list stands for a dict: in every store reached from the empty one no
    two tasks share an id. *)
Lemma db_set_ids (task : Task) (k : string) (db : tasks_db) :
  In k (map id (db_set task db)) -> k = id task \/ In k (map id db).
Proof.
  induction db as [|x db IH]; simpl.
  - intros [<-|[]]; auto.
  - destruct (String.eqb (id x) (id task)); simpl; intros [H|H]; auto.
    destruct (IH H); auto.
Qed.

Lemma db_set_unique (task : Task) (db : tasks_db) :
  NoDup (map id db) -> NoDup (map id (db_set task db)).
Proof.
  induction db as [|x db IH]; simpl; intros H.
  - constructor; [intros []|constructor].
  - inversion H as [|? ? Hnin Hnd]; subst.
    destruct (String.eqb (id x) (id task)) eqn:E; simpl.
    + apply String.eqb_eq in E. rewrite <- E. now constructor.
    + constructor; [|auto]. intros Hin.
      apply db_set_ids in Hin as [Hx|Hin]; [|contradiction].
      rewrite Hx, String.eqb_refl in E. discriminate.
Qed.

Lemma db_mutate_ids (k : string) (f : Task -> Task) (db : tasks_db) :
  (forall t, id (f t) = id t) -> map id (db_mutate k f db) = map id db.
Proof.
  intros Hf. induction db as [|x db IH]; simpl; [reflexivity|].
  destruct (String.eqb (id x) k); simpl; [now rewrite Hf|now rewrite IH].
Qed.

Lemma db_del_unique (k : string) (db : tasks_db) :
  NoDup (map id db) -> NoDup (map id (db_del k db)).
Proof.
  induction db as [|x db IH]; simpl; intros H; [constructor|].
  inversion H as [|? ? Hnin Hnd]; subst.
  destruct (negb (String.eqb (id x) k)); simpl; [|auto].
  constructor; [|auto]. intros Hin. apply Hnin.
  apply in_map_iff in Hin as (t & Ht & Hin). apply db_del_in in Hin as [Hin _].
  apply in_map_iff. eauto.
Qed.

Lemma step_keeps_ids_unique (c : call) (db : tasks_db) :
  NoDup (map id db) -> NoDup (map id (snd (step c db))).
Proof.
  intros H. destruct c as [tid tnow d p due|tnow ident|f|ident]; simpl.
  - now apply db_set_unique.
  - unfold complete_task. destruct (_find_task ident db); simpl; [|exact H].
    now rewrite db_mutate_ids.
  - exact H.
  - unfold delete_task. destruct (_find_task ident db); simpl; [|exact H].
    now apply db_del_unique.
Qed.

Lemma run_keeps_ids_unique (calls : list call) :
  forall db, NoDup (map id db) -> NoDup (map id (run calls db)).
Proof.
  induction calls as [|c calls IH]; intros db H; simpl; [exact H|].
  apply IH. now apply step_keeps_ids_unique.
Qed.

End RoundTrip.

Section RoundTripLatin1.
Import TaskManager.
#[local] Existing Instance PyStr.Latin1.

(** C8, as written for every store, fails: when an older task's description
    contains the new one's, [complete_task] marks the older task. *)
Lemma round_trip_fails :
  list_tasks None
    (snd (complete_task 2 "buy milk"
            (snd (create_task "t1" 1 "buy milk" "high" None
                    [mkTask "t0" "buy milk and eggs" "medium" "pending" 0
                            None None true]))))
  = listing
      [ mkTask "t1" "buy milk" "high" "pending" 1 None None true;
        mkTask "t0" "buy milk and eggs" "medium" "completed" 0 (Some 2%Z)
               None true ]
  /\ ~ round_trip
         [mkTask "t0" "buy milk and eggs" "medium" "pending" 0 None None true]
         "t1" 1 2 3 "buy milk" "high".
Proof.
  split; [reflexivity|].
  intros [[_ (task & Hin & Hid & _ & _ & Hst)] _].
  vm_compute in Hin.
  destruct Hin as [<-|[<-|[]]]; discriminate.
Qed.

Lemma round_trip_when_description_is_new_witness :
  round_trip
    [mkTask "t0" "call bob" "medium" "pending" 0 None None true]
    "t1" 1 2 3 "Buy milk" "high".
Proof.
  apply round_trip_when_description_is_new.
  - intros t [<-|[]]; discriminate.
  - intros t [<-|[]]; reflexivity.
Defined.

Lemma reachable_completed_at_iff_completed_witness :
  completed_at_iff_completed
    (mkTask "t1" "buy milk" "high" "completed" 1 (Some 5%Z) None true).
Proof.
  apply (reachable_completed_at_iff_completed
           [ CreateTask "t1" 1 "buy milk" "high" None;
             CreateTask "t2" 2 "call bob" "low" None;
             ListTasks None;
             CompleteTask 5 "MILK";
             DeleteTask "bob" ]).
  vm_compute. left. reflexivity.
Defined.

End RoundTripLatin1.

(* ------------------------------------------------------------------ *)
(** ** The processor *)

Section ProcessorFacts.
Context {U : PyStr.Unicode}.
Import ClaraTaskProcessor.

(** The guidance for unknown commands is chosen by the first vocabulary, in
    the order tasks, files, web, that has a word in the lower-cased text. *)
Lemma handle_unknown_command_order (command_text : string) :
  let text := PyStr.lower command_text in
  (PyStr.any_in ["task"; "todo"; "remind"] text = true ->
   _handle_unknown_command command_text = guidance_tasks)
  /\ (PyStr.any_in ["task"; "todo"; "remind"] text = false ->
      PyStr.any_in ["file"; "document"; "open"; "read"] text = true ->
      _handle_unknown_command command_text = guidance_files)
  /\ (PyStr.any_in ["task"; "todo"; "remind"] text = false ->
      PyStr.any_in ["file"; "document"; "open"; "read"] text = false ->
      PyStr.any_in ["browser"; "web"; "search"; "google"] text = true ->
      _handle_unknown_command command_text = guidance_web)
  /\ (PyStr.any_in ["task"; "todo"; "remind"] text = false ->
      PyStr.any_in ["file"; "document"; "open"; "read"] text = false ->
      PyStr.any_in ["browser"; "web"; "search"; "google"] text = false ->
      _handle_unknown_command command_text = guidance_generic).
Proof.
  unfold _handle_unknown_command. cbv zeta.
  repeat split; intros; repeat match goal with H : _ = _ |- _ => rewrite H end;
    reflexivity.
Qed.

(** A command with the action ["unknown"] is answered with that guidance,
    and the store is not called. *)
Lemma unknown_command_guidance {St} (task_manager : Store.t St)
    (command_text : string) (cmd : VoiceCommand) (s : St) :
  VoiceCommandParser.parse_command command_text = Ret cmd ->
  action cmd = "unknown" ->
  process_voice_command task_manager command_text s
  = (Ret (_handle_unknown_command command_text), s).
Proof.
  intros Hp Ha. unfold process_voice_command, try_except, bind, lift, ret.
  now rewrite Hp, Ha.
Qed.

(** C1 at the utterance "hello", which has no word of any task vocabulary:
    [parse_command] returns a [create] command, not an unknown one, and
    [process_voice_command] stores a task named "hello" instead of returning
    the guidance that [_handle_unknown_command] has for this text. *)
Theorem hello_is_parsed_as_create :
  VoiceCommandParser.parse_command "hello"
  = Ret (mkVoiceCommand "create" "task"
           [("operation", "create"); ("description", "hello");
            ("priority", "medium")] "hello")
  /\ _handle_unknown_command "hello" = guidance_generic
  /\ forall (rt : TaskManager.Runtime) (db : TaskManager.tasks_db),
       process_voice_command (TaskManager.store rt) "hello" db
       = (Ret "Task created: hello",
          TaskManager.db_set
            (TaskManager.mkTask (TaskManager.uuid4 rt) "hello" "medium"
               "pending" (TaskManager.now rt) None None true) db).
Proof.
  split; [vm_compute; reflexivity|].
  split; [vm_compute; reflexivity|].
  intros rt db. reflexivity.
Qed.

(** The guard of [_process_task_command]: with an empty or absent description
    the answer is the clarification, whatever the operation and whatever the
    store, which is left as it was. *)
Lemma empty_description_guard {St} (task_manager : Store.t St)
    (command : VoiceCommand) (s : St) :
  PyDict.get "description" (parameters command) = Some "" \/
  PyDict.get "description" (parameters command) = None ->
  _process_task_command task_manager command s = (Ret clarification, s).
Proof.
  unfold _process_task_command. intros [->| ->]; reflexivity.
Qed.

Lemma extract_time_reference_other (k text : string) (ps : PyDict.dict) :
  k <> "time_reference" ->
  PyDict.get k (VoiceCommandParser.extract_time_reference text ps)
  = PyDict.get k ps.
Proof.
  intros Hk. unfold VoiceCommandParser.extract_time_reference.
  generalize VoiceCommandParser.time_patterns as pats. intros pats; revert ps.
  induction pats as [|p pats IH]; intros ps; simpl; [reflexivity|].
  rewrite IH. destruct (re.search p text); [|reflexivity].
  apply get_set_other. congruence.
Qed.

(** No pattern of the [list] operation has a capturing group, so a [list]
    command built by the parser has the empty description. *)
Lemma list_commands_have_no_description (text original : string)
    (pattern : re.regex) (m : re.Match) :
  In pattern VoiceCommandParser.list_patterns ->
  exists cmd,
    VoiceCommandParser.command_of_match "list" text original pattern m
    = Ret cmd /\
    PyDict.get "description" (parameters cmd) = Some "".
Proof.
  intros Hin. unfold VoiceCommandParser.command_of_match.
  assert (H : forallb (fun p => Nat.eqb (re.ngroups p) 0)
                      VoiceCommandParser.list_patterns = true) by reflexivity.
  rewrite forallb_forall in H. apply H, Nat.eqb_eq in Hin. rewrite Hin.
  cbn [Nat.leb].
  eexists; split; [reflexivity|]. cbn [parameters].
  rewrite get_update by apply extract_parameters_nodup.
  assert (Hd : PyDict.get "description"
                 (VoiceCommandParser._extract_parameters text "list" "")
               = None).
  { unfold VoiceCommandParser._extract_parameters.
    case_ifs;
      repeat (rewrite get_set_other by discriminate);
      now rewrite extract_time_reference_other by discriminate. }
  change (PyStr.strip "") with "". now rewrite Hd.
Qed.

End ProcessorFacts.

Section ProcessorClaims.
Context {U : PyStr.Unicode}.
Import ClaraTaskProcessor.

(** C3 at a [list] command with the empty description: the test of the
    description stands before the dispatch on the operation and does not
    look at the operation, so the answer is the clarification
    and [list_tasks] is not called, on a counting store as on the task
    manager, whose listing is not returned. *)
Theorem list_command_stopped_by_guard :
  re.search (nth 0 VoiceCommandParser.list_patterns (re.Lit "")) "show my tasks"
  = Some (re.mkMatch 0 "show my tasks" [])
  /\ VoiceCommandParser.command_of_match "list" "show my tasks" "show my tasks"
       (nth 0 VoiceCommandParser.list_patterns (re.Lit ""))
       (re.mkMatch 0 "show my tasks" [])
     = Ret bare_list_command
  /\ _process_task_command counting_store bare_list_command 0
     = (Ret clarification, 0)
  /\ Store.list_tasks counting_store 0 = (Ret "listed", 1)
  /\ forall (rt : TaskManager.Runtime) (db : TaskManager.tasks_db),
       _process_task_command (TaskManager.store rt) bare_list_command db
       = (Ret clarification, db).
Proof.
  split; [vm_compute; reflexivity|].
  split; [vm_compute; reflexivity|].
  split; [reflexivity|].
  split; [reflexivity|].
  intros rt db. reflexivity.
Qed.

Lemma parse_command_entity (text : string) (cmd : VoiceCommand) :
  VoiceCommandParser.parse_command text = Ret cmd ->
  action cmd <> "unknown" -> entity cmd = "task".
Proof.
  unfold VoiceCommandParser.parse_command.
  destruct (VoiceCommandParser.scan_table _ _ _) as [r|] eqn:E.
  - intros -> _.
    destruct (scan_table_inv _ _ _ _ E) as (op & ps & p & m & _ & _ & _ & Hr).
    symmetry in Hr. now apply command_of_match_ret in Hr as (_ & He & _).
  - intros H; injection H as <-. simpl. congruence.
Qed.

(** When the dispatch raises, a call to the store has raised. *)
Lemma dispatch_raises_from_store {St} (task_manager : Store.t St)
    (cmd : VoiceCommand) (s s' : St) (e : exc) :
  _process_task_command task_manager cmd s = (Raise e, s') ->
  raised_by_store task_manager s e s'.
Proof.
  unfold raised_by_store, _process_task_command, ret.
  case_ifs; intros H; try discriminate; eauto 6.
Qed.

(** What [parse_command] raises is an instance of [Exception]. *)
Lemma parse_command_raises_Exception (text : string) (e : exc) :
  VoiceCommandParser.parse_command text = Raise e -> is_Exception e = true.
Proof.
  unfold VoiceCommandParser.parse_command.
  destruct (VoiceCommandParser.scan_table _ _ _) as [r|] eqn:E;
    [|discriminate].
  intros ->.
  destruct (scan_table_inv _ _ _ _ E) as (op & ps & p & m & _ & _ & _ & Hr).
  unfold VoiceCommandParser.command_of_match in Hr.
  destruct (_ <=? _)%nat in Hr; [|discriminate].
  destruct (re.group 1 m) in Hr; [discriminate|].
  now injection Hr as ->.
Qed.

(** What [process_voice_command] makes of the three outcomes of its body. *)
Lemma process_voice_command_outcome {St} (task_manager : Store.t St)
    (command_text : string) (s : St) :
  (exists response s',
     process_voice_command task_manager command_text s = (Ret response, s'))
  \/ (exists e s',
        process_voice_command task_manager command_text s = (Raise e, s')
        /\ is_Exception e = false
        /\ exists cmd,
             VoiceCommandParser.parse_command command_text = Ret cmd
             /\ _process_task_command task_manager cmd s = (Raise e, s')).
Proof.
  unfold process_voice_command, try_except, bind, lift.
  destruct (VoiceCommandParser.parse_command command_text) as [cmd|e] eqn:Hp.
  - destruct (String.eqb (action cmd) "unknown"); [left; unfold ret; eauto|].
    destruct (String.eqb (entity cmd) "task"); [|left; unfold ret; eauto].
    destruct (_process_task_command task_manager cmd s) as [[r|e] s'] eqn:Hd.
    + left; eauto.
    + destruct (is_Exception e) eqn:He; [left; unfold ret; eauto|].
      right. exists e, s'. repeat split; eauto.
  - rewrite (parse_command_raises_Exception _ _ Hp).
    left. unfold ret. eauto.
Qed.

(** C9, amended: [process_voice_command] returns a string unless a call to
    the task store raises an exception that is no instance of [Exception],
    which is not caught and reaches the caller.  So it returns a string for
    every input text on a store that raises instances of [Exception] only;
    and when a store call raises during the dispatch, an instance of
    [Exception] is caught and the string returned is the apology followed by
    the text of the exception, any other exception is raised to the
    caller. *)
Theorem process_voice_command_catches_Exception {St}
    (task_manager : Store.t St) (command_text : string) (s : St) :
  ((exists response s',
      process_voice_command task_manager command_text s = (Ret response, s'))
   \/ (exists e s',
         process_voice_command task_manager command_text s = (Raise e, s')
         /\ is_Exception e = false
         /\ raised_by_store task_manager s e s'))
  /\ (raises_Exception_only task_manager ->
      exists response s',
        process_voice_command task_manager command_text s
        = (Ret response, s'))
  /\ (forall cmd e s',
        VoiceCommandParser.parse_command command_text = Ret cmd ->
        action cmd <> "unknown" ->
        _process_task_command task_manager cmd s = (Raise e, s') ->
        raised_by_store task_manager s e s'
        /\ process_voice_command task_manager command_text s
           = if is_Exception e then (Ret (apology (str_of e)), s')
             else (Raise e, s')).
Proof.
  pose proof (process_voice_command_outcome task_manager command_text s)
    as H.
  split; [|split].
  - destruct H as [H|(e & s' & H & He & cmd & _ & Hd)]; [now left|].
    right. exists e, s'. repeat split; try assumption.
    eapply dispatch_raises_from_store; exact Hd.
  - intros Hstore.
    destruct H as [H|(e & s' & _ & He & cmd & _ & Hd)]; [exact H|].
    apply dispatch_raises_from_store in Hd.
    rewrite (Hstore s e s' Hd) in He. discriminate.
  - intros cmd e s' Hp Ha Hd.
    split; [eapply dispatch_raises_from_store; exact Hd|].
    pose proof (parse_command_entity _ _ Hp Ha) as He.
    unfold process_voice_command, try_except, bind, lift, ret.
    rewrite Hp. apply String.eqb_neq in Ha. rewrite Ha, He. simpl.
    now rewrite Hd.
Qed.

End ProcessorClaims.

Section ProcessorClaimsLatin1.
Import ClaraTaskProcessor.
#[local] Existing Instance PyStr.Latin1.

(** C9, as written, fails: when the store call is cancelled while the
    processor awaits it, the [asyncio.CancelledError] passes the handler and
    [process_voice_command] raises it to its caller. *)
Lemma process_voice_command_raises :
  process_voice_command (failing_store CancelledError) "buy milk" tt
  = (Raise CancelledError, tt)
  /\ ~ (exists response s',
          process_voice_command (failing_store CancelledError) "buy milk" tt
          = (Ret response, s')).
Proof.
  assert (H : process_voice_command (failing_store CancelledError)
                "buy milk" tt = (Raise CancelledError, tt))
    by (vm_compute; reflexivity).
  split; [exact H|].
  intros (response & s' & H'). rewrite H in H'. discriminate.
Qed.

Lemma process_voice_command_catches_Exception_witness :
  (exists response s',
     process_voice_command (failing_store (mkExc true "database is locked"))
       "buy milk" tt = (Ret response, s'))
  /\ process_voice_command (failing_store (mkExc true "database is locked"))
       "buy milk" tt
     = (Ret "Sorry, I encountered an error processing your request: database is locked",
        tt).
Proof.
  split.
  - apply (proj1 (proj2 (process_voice_command_catches_Exception
                           (failing_store (mkExc true "database is locked"))
                           "buy milk" tt))).
    intros [] e [] [(d & p & H)|[(d & H)|[H|(d & H)]]];
      injection H as <-; reflexivity.
  - refine (proj2 (proj2 (proj2 (process_voice_command_catches_Exception
                            (failing_store (mkExc true "database is locked"))
                            "buy milk" tt))
                     (mkVoiceCommand "create" "task"
                        [("operation", "create"); ("description", "buy milk");
                         ("priority", "medium")] "buy milk")
                     (mkExc true "database is locked") tt _ _ _)).
    + vm_compute; reflexivity.
    + vm_compute; discriminate.
    + vm_compute; reflexivity.
Defined.

End ProcessorClaimsLatin1.

(* ================================================================== *)
(** * Further properties of the code *)

(* ------------------------------------------------------------------ *)
(** ** Normalization of the text *)

Section Normalization.
Context {U : PyStr.Unicode}.
Import PyStr.

Lemma rstrip_idem (s : string) : rstrip (rstrip s) = rstrip s.
Proof.
  induction s as [|c s IH]; simpl; [reflexivity|].
  destruct (rstrip s) as [|a r] eqn:E.
  - destruct (is_space c) eqn:Ec; simpl; [reflexivity|now rewrite Ec].
  - change (rstrip (String c (String a r))) with
      (match rstrip (String a r) with
       | EmptyString =>
           if is_space c then EmptyString else String c EmptyString
       | r' => String c r'
       end).
    now rewrite IH.
Qed.

Lemma rstrip_keeps_head (c : ascii) (s : string) :
  is_space c = false -> exists r, rstrip (String c s) = String c r.
Proof.
  intros Hc. simpl. destruct (rstrip s); [rewrite Hc|]; eauto.
Qed.

Lemma strip_idem (s : string) : strip (strip s) = strip s.
Proof.
  unfold strip.
  assert (H : lstrip (rstrip (lstrip s)) = rstrip (lstrip s)).
  { destruct (rstrip (lstrip s)) as [|c r] eqn:E; [reflexivity|].
    destruct (rstrip_head _ _ _ E) as [s' Hs'].
    simpl. now rewrite (lstrip_head _ _ _ Hs'). }
  rewrite H. apply rstrip_idem.
Qed.

Section Laws.
Context {L : UnicodeLaws U}.

Lemma normalized_idem (text : string) :
  normalized (normalized text) = normalized text.
Proof.
  unfold normalized.
  now rewrite law_lower_strip, law_lower_idem, strip_idem.
Qed.

Lemma normalized_lower (text : string) :
  normalized (lower text) = normalized text.
Proof. unfold normalized. now rewrite law_lower_idem. Qed.

Lemma normalized_strip (text : string) :
  normalized (strip text) = normalized text.
Proof. unfold normalized. now rewrite law_lower_strip, strip_idem. Qed.

End Laws.

(** A text that strips to nothing holds no word that starts with a
    character other than white space. *)
Lemma lstrip_empty_contains (w s : string) :
  headed_word w = true -> lstrip s = "" -> contains w s = false.
Proof.
  destruct w as [|a w]; [discriminate|]. simpl. intros Ha.
  apply negb_true_iff in Ha.
  induction s as [|c s IH]; simpl; [reflexivity|].
  destruct (is_space c) eqn:Ec; [|discriminate]. intros Hs.
  destruct (ascii_dec a c) as [->|_]; [congruence|]. auto.
Qed.

Lemma strip_empty_lstrip (s : string) : strip s = "" -> lstrip s = "".
Proof.
  unfold strip. destruct (lstrip s) as [|c r] eqn:E; [reflexivity|].
  destruct (rstrip_keeps_head c r (lstrip_head _ _ _ E)) as [r' ->].
  discriminate.
Qed.

Lemma blank_has_no_word (words : list string) (s : string) :
  forallb headed_word words = true -> strip s = "" ->
  any_in words s = false.
Proof.
  intros Hw Hs. apply strip_empty_lstrip in Hs. unfold any_in.
  induction words as [|w words IH]; simpl in *; [reflexivity|].
  apply andb_true_iff in Hw as [Hw Hws].
  now rewrite (lstrip_empty_contains w s Hw Hs), IH.
Qed.

Lemma strip_headed (c : ascii) (r : string) :
  is_space c = false -> headed (strip (String c r)).
Proof.
  intros Hc. unfold strip. simpl. rewrite Hc.
  destruct (rstrip_keeps_head c r Hc) as [r' ->]. now exists c, r'.
Qed.

Lemma headed_not_empty (s : string) : headed s -> s <> "".
Proof. intros (c & r & -> & _). discriminate. Qed.

Lemma clean_end_normalized (text : string) : clean_end (normalized text).
Proof. unfold clean_end, normalized, strip. apply rstrip_idem. Qed.

Lemma clean_end_tail (c : ascii) (s : string) :
  clean_end (String c s) -> clean_end s.
Proof.
  unfold clean_end. simpl. destruct (rstrip s) as [|a r] eqn:E.
  - destruct (is_space c); [discriminate|]. intros H; now injection H as <-.
  - intros H; now injection H as <-.
Qed.

Lemma clean_end_after_space (c : ascii) (s : string) :
  clean_end (String c s) -> is_space c = true -> s <> "".
Proof.
  unfold clean_end. intros H Hc ->. simpl in H. rewrite Hc in H. discriminate.
Qed.

Lemma clean_end_strip_prefix (p s s' : string) :
  strip_prefix p s = Some s' -> clean_end s -> clean_end s'.
Proof.
  revert s. induction p as [|a p IH]; intros s; simpl.
  - intros H; now injection H as <-.
  - destruct s as [|b s]; [discriminate|].
    destruct (Ascii.eqb a b); [|discriminate].
    intros H Hc. apply (IH s H). eapply clean_end_tail; eassumption.
Qed.

End Normalization.

(* ------------------------------------------------------------------ *)
(** ** The characters up to U+00FF *)

Section Latin1Laws.
Import PyStr.
#[local] Existing Instance Latin1.

Lemma latin1_lower_ascii (c : ascii) :
  is_ascii c = true -> ascii_lower_char c = latin1_lower_char c.
Proof. destruct c as [[] [] [] [] [] [] [] []]; (reflexivity || discriminate). Qed.

Lemma latin1_lower_char_idem (c : ascii) :
  latin1_lower_char (latin1_lower_char c) = latin1_lower_char c.
Proof. destruct c as [[] [] [] [] [] [] [] []]; reflexivity. Qed.

Lemma latin1_is_space_lower_char (c : ascii) :
  is_space (latin1_lower_char c) = is_space c.
Proof. destruct c as [[] [] [] [] [] [] [] []]; reflexivity. Qed.

(** On these characters [str.lower] works character by character. *)
Lemma latin1_lower (s : string) : lower s = map_chars latin1_lower_char s.
Proof.
  unfold lower. destruct (ascii_only s) eqn:E; [|reflexivity].
  induction s as [|c s IH]; [reflexivity|].
  simpl in E. apply andb_true_iff in E as [Ec Es]. simpl.
  now rewrite (latin1_lower_ascii c Ec), (IH Es).
Qed.

Lemma latin1_lower_lstrip (s : string) :
  map_chars latin1_lower_char (lstrip s)
  = lstrip (map_chars latin1_lower_char s).
Proof.
  induction s as [|c s IH]; simpl; [reflexivity|].
  rewrite latin1_is_space_lower_char.
  destruct (is_space c); [exact IH|reflexivity].
Qed.

Lemma latin1_lower_rstrip (s : string) :
  map_chars latin1_lower_char (rstrip s)
  = rstrip (map_chars latin1_lower_char s).
Proof.
  induction s as [|c s IH]; simpl; [reflexivity|].
  rewrite <- IH, latin1_is_space_lower_char.
  destruct (rstrip s); simpl; [destruct (is_space c)|]; reflexivity.
Qed.

(** The two facts of [str.lower] hold on these characters. *)
Lemma Latin1_laws : UnicodeLaws Latin1.
Proof.
  split; intros s; rewrite !latin1_lower.
  - induction s as [|c s IH]; simpl; [reflexivity|].
    now rewrite latin1_lower_char_idem, IH.
  - unfold strip. now rewrite latin1_lower_rstrip, latin1_lower_lstrip.
Qed.

End Latin1Laws.

(* ------------------------------------------------------------------ *)
(** ** What group 1 of a [create] pattern captures *)

Section CaptureFacts.
Context {U : PyStr.Unicode}.
Import re.

(** The matcher hands its continuation a suffix of its input, which has no
    white space at its end when the input has none. *)
Lemma rep_inv_clean {R} (p : ascii -> bool) (s : string) :
  forall lo hi (k : string -> option R) x,
    rep p lo hi s k = Some x -> clean_end s ->
    exists s', clean_end s' /\ k s' = Some x.
Proof.
  induction s as [|c s IH]; intros lo hi k x; simpl.
  - destruct (Nat.eqb lo 0); [eauto|discriminate].
  - destruct (p c && _).
    + destruct (rep p (Nat.pred lo) (option_map Nat.pred hi) s k) eqn:E.
      * intros H Hc; injection H as <-.
        eapply IH; [eassumption|]. eapply clean_end_tail; eassumption.
      * destruct (Nat.eqb lo 0); [eauto|discriminate].
    + destruct (Nat.eqb lo 0); [eauto|discriminate].
Qed.

Lemma rmatch_inv_clean {R} (r : regex) :
  forall s g (k : string -> groups -> option R) x,
    rmatch r s g k = Some x -> clean_end s ->
    exists s' g', clean_end s' /\ k s' g' = Some x.
Proof.
  induction r as [l|cs lo hi|r1 IH1 r2 IH2|r1 IH1 r2 IH2|r1 IH1|m r1 IH1];
    intros s g k x; simpl.
  - destruct (PyStr.strip_prefix l s) as [s'|] eqn:E; [|discriminate].
    intros H Hc. exists s', g; split; [|exact H].
    eapply clean_end_strip_prefix; eassumption.
  - intros H Hc. apply rep_inv_clean in H as (s' & Hs' & H); eauto.
  - intros H Hc. apply IH1 in H as (s1 & g1 & Hc1 & H); [|exact Hc].
    apply IH2 in H; assumption.
  - destruct (rmatch r1 s g k) eqn:E.
    + intros H Hc; injection H as <-. eapply IH1; eassumption.
    + intros H Hc. eapply IH2; eassumption.
  - destruct (rmatch r1 s g k) eqn:E.
    + intros H Hc; injection H as <-. eapply IH1; eassumption.
    + eauto.
  - intros H Hc. apply IH1 in H as (s1 & g1 & Hc1 & H); eauto.
Qed.

(** A repetition that must take [lo] characters takes them. *)
Lemma rep_inv_length {R} (p : ascii -> bool) (s : string) :
  forall lo hi (k : string -> option R) x,
    rep p lo hi s k = Some x ->
    exists s', k s' = Some x /\ lo + String.length s' <= String.length s.
Proof.
  induction s as [|c s IH]; intros lo hi k x; simpl.
  - destruct (Nat.eqb lo 0) eqn:E; [|discriminate].
    apply Nat.eqb_eq in E; subst. eauto.
  - assert (Hstop : (if Nat.eqb lo 0 then k (String c s) else None) = Some x ->
                    exists s', k s' = Some x /\
                               lo + String.length s' <= S (String.length s)).
    { destruct (Nat.eqb lo 0) eqn:E; [|discriminate].
      apply Nat.eqb_eq in E; subst. eauto. }
    destruct (p c && _); [|exact Hstop].
    destruct (rep p (Nat.pred lo) (option_map Nat.pred hi) s k) eqn:E;
      [|exact Hstop].
    intros H; injection H as <-. apply IH in E as (s' & Hk & Hlen).
    exists s'; split; [exact Hk|lia].
Qed.

Section SpaceRun.
Context {R : Type}.
Variable k : string -> option R.
Hypothesis k_total : forall s, headed s -> clean_end s -> k s <> None.

(** Greedy [\s*] before a continuation that accepts every text starting
    with a character other than white space: all the white space is taken. *)
Lemma space_run_zero (s : string) :
  clean_end s -> s <> "" ->
  rep PyStr.is_space 0 None s k <> None /\
  forall x, rep PyStr.is_space 0 None s k = Some x ->
            exists s', headed s' /\ clean_end s' /\ k s' = Some x.
Proof.
  induction s as [|c s IH]; intros Hc Hne; [congruence|]. simpl.
  destruct (PyStr.is_space c) eqn:Ec; simpl.
  - destruct (IH (clean_end_tail _ _ Hc) (clean_end_after_space _ _ Hc Ec))
      as [Hsome Hres].
    destruct (rep PyStr.is_space 0 None s k) as [y|]; [|contradiction].
    split; [discriminate|]. intros x Hx. now apply Hres.
  - assert (Hh : headed (String c s)) by now exists c, s.
    split; [now apply k_total|]. intros x Hx. eauto.
Qed.

Lemma space_run_one (s : string) (x : R) :
  clean_end s -> rep PyStr.is_space 1 None s k = Some x ->
  exists s', headed s' /\ clean_end s' /\ k s' = Some x.
Proof.
  destruct s as [|c s]; simpl; [discriminate|]. intros Hc.
  destruct (PyStr.is_space c) eqn:Ec; simpl; [|discriminate].
  destruct (space_run_zero s (clean_end_tail _ _ Hc)
              (clean_end_after_space _ _ Hc Ec)) as [Hsome Hres].
  destruct (rep PyStr.is_space 0 None s k) as [y|]; [|contradiction].
  apply Hres.
Qed.

End SpaceRun.

(** A pattern that ends with [\s+] leaves a text that starts with a
    character other than white space. *)
Lemma ends_ws_lands {R} (r : regex) :
  ends_ws r = true ->
  forall s g (k : string -> groups -> option R) x,
    (forall s' g', headed s' -> clean_end s' -> k s' g' <> None) ->
    clean_end s -> rmatch r s g k = Some x ->
    exists s' g', headed s' /\ clean_end s' /\ k s' g' = Some x.
Proof.
  induction r as [l|cs lo hi|r1 IH1 r2 IH2|r1 IH1 r2 IH2|r1 IH1|m r1 IH1];
    simpl; try discriminate.
  - destruct cs; try discriminate.
    destruct lo as [|[|lo]]; try discriminate.
    destruct hi; [discriminate|]. intros _ s g k x Hk Hc H.
    apply space_run_one in H as (s' & Hh & Hc' & H); eauto.
  - intros He s g k x Hk Hc H.
    apply rmatch_inv_clean in H as (s1 & g1 & Hc1 & H); [|exact Hc].
    eapply IH2; eassumption.
Qed.

(** [(.+)] as group 1 on a text that starts with a character other than
    white space: the match succeeds and the group starts with it. *)
Lemma rest_captures_headed (pos : nat) (s0 s : string) (g : groups) :
  headed s ->
  rmatch (VoiceCommandParser.rest 1) s g (final pos s0) <> None /\
  forall m, rmatch (VoiceCommandParser.rest 1) s g (final pos s0) = Some m ->
            group_headed m.
Proof.
  intros (c & r & -> & Hc). unfold VoiceCommandParser.rest, plus.
  cbn [rmatch]. split.
  - apply rep_one_total; [now apply not_space_dot|discriminate].
  - intros m H. apply rep_inv_length in H as (s' & H & Hlen).
    unfold final in H. injection H as <-.
    unfold group_headed, group, set_group.
    cbn [m_groups get_group Nat.eqb].
    eexists; split; [reflexivity|].
    unfold consumed. cbn [String.length] in *.
    assert (E : S (String.length r) - String.length s'
                = S (String.length r - String.length s')) by lia.
    rewrite E. cbn [PyStr.take]. now eexists _, _.
Qed.

Lemma opt_rest_captures_headed (b : regex) (pos : nat) (s0 s : string)
    (g : groups) :
  ends_ws b = true -> headed s -> clean_end s ->
  rmatch (Cat (Opt b) (VoiceCommandParser.rest 1)) s g (final pos s0) <> None /\
  forall m,
    rmatch (Cat (Opt b) (VoiceCommandParser.rest 1)) s g (final pos s0)
    = Some m -> group_headed m.
Proof.
  intros Hb Hh Hc. cbn [rmatch].
  destruct (rest_captures_headed pos s0 s g Hh) as [Hsome Hres].
  destruct (rmatch b s g _) as [y|] eqn:E.
  - split; [discriminate|]. intros m Hm; injection Hm as <-.
    apply (ends_ws_lands b Hb) in E as (s' & g' & Hh' & _ & E); [|..].
    + now apply (rest_captures_headed pos s0 s' g' Hh').
    + intros s' g' Hh' _. now apply rest_captures_headed.
    + exact Hc.
  - split; assumption.
Qed.

Lemma lands_capture_headed (r : regex) (pos : nat) (s0 : string) :
  lands_capture r ->
  forall s g m, clean_end s -> rmatch r s g (final pos s0) = Some m ->
                group_headed m.
Proof.
  induction 1 as [|b Hb|r1 r2 _ IH]; intros s g m Hc H.
  - cbn [rmatch] in H. unfold VoiceCommandParser.ws, plus in H.
    cbn [rmatch in_cset] in H.
    apply space_run_one in H as (s' & Hh & _ & H).
    + now apply (rest_captures_headed pos s0 s' g Hh).
    + intros s' Hh _. now apply rest_captures_headed.
    + exact Hc.
  - change (rmatch (Cat VoiceCommandParser.ws
                      (Cat (Opt b) (VoiceCommandParser.rest 1)))
              s g (final pos s0))
      with (rep PyStr.is_space 1 None s
              (fun s1 => rmatch (Cat (Opt b) (VoiceCommandParser.rest 1))
                                s1 g (final pos s0))) in H.
    apply space_run_one in H as (s' & Hh & Hc' & H).
    + now apply (opt_rest_captures_headed b pos s0 s' g Hb Hh Hc').
    + intros s' Hh Hc'. now apply opt_rest_captures_headed.
    + exact Hc.
  - cbn [rmatch] in H.
    apply rmatch_inv_clean in H as (s1 & g1 & Hc1 & H); [|exact Hc].
    eapply IH; eassumption.
Qed.

(** [search] returns a match found at some suffix of the text. *)
Lemma search_from_found (r : regex) (s : string) :
  forall pos m, search_from r s pos = Some m -> clean_end s ->
    exists s' pos', clean_end s' /\ match_at r s' pos' = Some m.
Proof.
  induction s as [|c s IH]; intros pos m; simpl.
  - destruct (match_at r "" pos) eqn:E; [|discriminate].
    intros H Hc; injection H as <-. eauto.
  - destruct (match_at r (String c s) pos) eqn:E.
    + intros H Hc; injection H as <-. eauto.
    + intros H Hc. eapply IH; [eassumption|].
      eapply clean_end_tail; eassumption.
Qed.

Lemma search_lands_capture (r : regex) (s : string) (m : Match) :
  lands_capture r -> clean_end s -> search r s = Some m -> group_headed m.
Proof.
  intros Hr Hc H. apply search_from_found in H as (s' & pos & Hc' & H);
    [|exact Hc].
  unfold match_at in H. eapply (lands_capture_headed r pos s'); eassumption.
Qed.

End CaptureFacts.

(* ------------------------------------------------------------------ *)
(** ** The commands the parser builds *)

Section ParserShape.
Context {U : PyStr.Unicode}.
Import VoiceCommandParser.

Lemma search_first (r : re.regex) (s : string) (m : re.Match) :
  re.match_at r s 0 = Some m -> re.search r s = Some m.
Proof.
  unfold re.search. intros H. destruct s; simpl; now rewrite H.
Qed.

(** In a text that starts and ends with characters other than white space,
    whatever [create] pattern matches, group 1 starts with such a
    character. *)
Lemma create_patterns_capture (t : string) (p : re.regex) (m : re.Match) :
  headed t -> clean_end t ->
  In p create_patterns -> re.search p t = Some m -> group_headed m.
Proof.
  intros Hh Hc Hin Hs.
  destruct Hin as [<-|[<-|[<-|[<-|[]]]]].
  - eapply search_lands_capture; [|exact Hc|exact Hs].
    cbn [re.cat]. do 4 apply lands_cat. now apply lands_ws_opt.
  - eapply search_lands_capture; [|exact Hc|exact Hs].
    cbn [re.cat]. do 2 apply lands_cat. apply lands_ws.
  - match type of Hs with
    | re.search (re.Cat (re.Opt ?b) _) _ = _ =>
        destruct (opt_rest_captures_headed b 0 t t [] eq_refl Hh Hc)
          as [Hsome Hres]
    end.
    match type of Hsome with
    | ?x <> None => destruct x as [m0|] eqn:E; [|contradiction]
    end.
    rewrite (search_first _ _ _ E) in Hs. injection Hs as <-.
    now apply Hres.
  - eapply search_lands_capture; [|exact Hc|exact Hs].
    cbn [re.cat]. apply lands_cat. now apply lands_ws_opt.
Qed.

Lemma extract_parameters_other (k text operation description : string) :
  k <> "time_reference" -> k <> "priority" -> k <> "context" ->
  PyDict.get k (_extract_parameters text operation description) = None.
Proof.
  intros H1 H2 H3. unfold _extract_parameters.
  case_ifs; repeat (rewrite get_set_other by congruence);
    now rewrite extract_time_reference_other.
Qed.

(** The parameters of a parsed command, key by key. *)
Lemma parsed_parameters (operation description text : string) :
  let params :=
    PyDict.update [("operation", operation); ("description", description)]
      (_extract_parameters text operation description) in
  PyDict.get "operation" params = Some operation /\
  PyDict.get "description" params = Some description /\
  PyDict.get "priority" params = Some (priority_of text).
Proof.
  cbv zeta. repeat split;
    rewrite get_update by apply extract_parameters_nodup.
  - now rewrite extract_parameters_other by discriminate.
  - now rewrite extract_parameters_other by discriminate.
  - now rewrite extract_parameters_priority.
Qed.

(** A text that is not blank is parsed into a [create] command whose
    description is not empty. *)
Lemma parse_nonblank (text : string) :
  normalized text <> "" ->
  exists description,
    headed description /\ PyStr.strip description = description /\
    parse_command text
    = Ret (mkVoiceCommand "create" "task"
             (PyDict.update
                [("operation", "create"); ("description", description)]
                (_extract_parameters (normalized text) "create" description))
             (normalized text)).
Proof.
  intros Hne. unfold parse_command. fold (normalized text).
  pose proof (clean_end_normalized text) as Hc.
  destruct (normalized text) as [|c s] eqn:Et; [congruence|].
  pose proof (strip_head _ _ _ Et) as Hsp.
  assert (Hh : headed (String c s)) by now exists c, s.
  set (t := String c s) in *.
  assert (Hsome : scan_patterns "create" create_patterns t t <> None).
  { apply scan_patterns_some.
    destruct (remind_pattern_matches c s Hsp) as (p & Hn & Hs).
    exists p; split; [eapply nth_error_In; exact Hn|exact Hs]. }
  change (scan_table task_patterns t t)
    with (match scan_patterns "create" create_patterns t t with
          | Some r => Some r
          | None => scan_table (tl task_patterns) t t
          end).
  destruct (scan_patterns "create" create_patterns t t) as [r|] eqn:E;
    [|contradiction].
  destruct (scan_patterns_inv _ _ _ _ _ E) as (p & m & Hin & Hs & ->).
  destruct (create_patterns_capture t p m Hh Hc Hin Hs)
    as (cap & Hcap & c' & r' & -> & Hc').
  assert (Hn : re.ngroups p = 1).
  { revert Hin. clear.
    assert (H : forallb (fun p => Nat.eqb (re.ngroups p) 1) create_patterns
                = true) by reflexivity.
    rewrite forallb_forall in H. intros Hin. now apply Nat.eqb_eq, H. }
  unfold command_of_match. rewrite Hn, Hcap. cbn [Nat.leb].
  exists (PyStr.strip (String c' r')).
  split; [now apply strip_headed|]. split; [apply strip_idem|reflexivity].
Qed.

Lemma parse_blank (text : string) :
  normalized text = "" ->
  parse_command text
  = Ret (mkVoiceCommand "unknown" "unknown" [("raw_text", "")] "").
Proof.
  intros H. unfold parse_command. fold (normalized text). now rewrite H.
Qed.

(** X1: [parse_command] does not depend on the case of the letters nor on
    the white space around the text: the lower-cased text, the stripped text
    and the text itself give the same command.  This rests on the two facts
    of [str.lower] named in [UnicodeLaws] and on nothing else about the
    characters outside ASCII. *)
Theorem parse_command_ignores_case_and_margins {L : PyStr.UnicodeLaws U}
    (text : string) :
  parse_command (PyStr.lower text) = parse_command text /\
  parse_command (PyStr.strip text) = parse_command text /\
  parse_command (normalized text) = parse_command text.
Proof.
  assert (H : forall a b, normalized a = normalized b ->
                          parse_command a = parse_command b).
  { intros a b E. unfold parse_command. fold (normalized a) (normalized b).
    now rewrite E. }
  repeat split; apply H.
  - apply normalized_lower.
  - apply normalized_strip.
  - apply normalized_idem.
Qed.

(** X2: [parse_command] never raises and builds one of two commands.  For a
    blank text, the unknown command with the empty raw text.  For any other
    text, a [create] command on the entity "task" whose raw text is the
    lower-cased, stripped text (not the text as given) and whose description
    is not empty and has no white space around it. *)
Theorem parse_command_builds_create_or_unknown (text : string) :
  (normalized text = "" /\
   parse_command text
   = Ret (mkVoiceCommand "unknown" "unknown" [("raw_text", "")] ""))
  \/ (normalized text <> "" /\
      exists cmd description,
        parse_command text = Ret cmd /\
        action cmd = "create" /\ entity cmd = "task" /\
        raw_text cmd = normalized text /\
        PyDict.get "operation" (parameters cmd) = Some "create" /\
        PyDict.get "description" (parameters cmd) = Some description /\
        description <> "" /\ PyStr.strip description = description).
Proof.
  destruct (string_dec (normalized text) "") as [E|E].
  - left. split; [exact E|now apply parse_blank].
  - right. split; [exact E|].
    destruct (parse_nonblank text E) as (d & Hh & Hs & Hp).
    eexists _, d. split; [exact Hp|]. cbn [action entity raw_text parameters].
    destruct (parsed_parameters "create" d (normalized text)) as (Ho & Hd & _).
    repeat split; auto. now apply headed_not_empty.
Qed.

End ParserShape.

Section ParserShapeLatin1.
Import VoiceCommandParser.
#[local] Existing Instance PyStr.Latin1.

Lemma parse_command_ignores_case_and_margins_witness :
  parse_command (PyStr.lower "  Buy MILK ") = parse_command "  Buy MILK " /\
  parse_command (PyStr.strip "  Buy MILK ") = parse_command "  Buy MILK " /\
  parse_command (normalized "  Buy MILK ") = parse_command "  Buy MILK ".
Proof.
  exact (parse_command_ignores_case_and_margins (L := Latin1_laws)
           "  Buy MILK ").
Defined.

End ParserShapeLatin1.

(* ------------------------------------------------------------------ *)
(** ** Context clues *)

Section ContextFacts.
Context {U : PyStr.Unicode}.
Import VoiceCommandParser.

Lemma extract_parameters_context (text operation description : string) :
  PyDict.get "context" (_extract_parameters text operation description)
  = if PyStr.contains "work" text || PyStr.contains "job" text
    then Some "work"
    else if PyStr.contains "personal" text then Some "personal"
    else None.
Proof.
  unfold _extract_parameters.
  destruct (PyStr.contains "work" text || PyStr.contains "job" text);
    [|destruct (PyStr.contains "personal" text)];
    try apply get_set_same;
    case_ifs; repeat (rewrite get_set_other by discriminate);
    now rewrite extract_time_reference_other.
Qed.

(** X3: the context of a parsed command is "work" when the normalized text
    contains "work" or "job", also inside a longer word and also when it
    contains "personal"; otherwise "personal" when it contains "personal";
    otherwise the command has no context parameter at all. *)
Theorem context_work_before_personal (text : string) (cmd : VoiceCommand) :
  parse_command text = Ret cmd -> action cmd <> "unknown" ->
  PyDict.get "context" (parameters cmd)
  = if PyStr.contains "work" (normalized text)
       || PyStr.contains "job" (normalized text)
    then Some "work"
    else if PyStr.contains "personal" (normalized text) then Some "personal"
    else None.
Proof.
  intros Hp Ha.
  destruct (parse_command_parameters text cmd Hp Ha) as [d Hd].
  rewrite Hd, get_update by apply extract_parameters_nodup.
  rewrite extract_parameters_context.
  destruct (PyStr.contains "work" _ || PyStr.contains "job" _);
    [reflexivity|].
  destruct (PyStr.contains "personal" _); reflexivity.
Qed.

End ContextFacts.

Section ContextFactsLatin1.
Import VoiceCommandParser.
#[local] Existing Instance PyStr.Latin1.

Lemma context_work_before_personal_witness :
  exists cmd,
    parse_command "Fix my personal NETWORK printer" = Ret cmd /\
    PyDict.get "context" (parameters cmd) = Some "work".
Proof.
  eexists. split; [vm_compute; reflexivity|].
  refine (eq_trans
            (context_work_before_personal
               "Fix my personal NETWORK printer" _ _ _) _).
  - vm_compute; reflexivity.
  - vm_compute; discriminate.
  - vm_compute; reflexivity.
Defined.

End ContextFactsLatin1.

(* ------------------------------------------------------------------ *)
(** ** What the processor does with an utterance *)

Section ProcessorOutcomes.
Context {U : PyStr.Unicode}.
Import ClaraTaskProcessor.

Lemma unknown_words_headed :
  forallb headed_word ["task"; "todo"; "remind"] = true /\
  forallb headed_word ["file"; "document"; "open"; "read"] = true /\
  forallb headed_word ["browser"; "web"; "search"; "google"] = true.
Proof. repeat split; reflexivity. Qed.

Lemma handle_unknown_blank (command_text : string) :
  normalized command_text = "" ->
  _handle_unknown_command command_text = guidance_generic.
Proof.
  unfold normalized. intros H. unfold _handle_unknown_command.
  destruct unknown_words_headed as (H1 & H2 & H3).
  now rewrite !blank_has_no_word by assumption.
Qed.

Lemma process_blank {St} (task_manager : Store.t St) (command_text : string)
    (s : St) :
  normalized command_text = "" ->
  process_voice_command task_manager command_text s
  = (Ret guidance_generic, s).
Proof.
  intros H. unfold process_voice_command, try_except, bind, lift, ret.
  rewrite (parse_blank _ H). cbn [action].
  change (String.eqb "unknown" "unknown") with true. cbv iota.
  now rewrite handle_unknown_blank.
Qed.

(** The dispatch of a parsed [create] command is one call of [create_task]
    inside the handler of [process_voice_command]. *)
Lemma process_nonblank (command_text : string) :
  normalized command_text <> "" ->
  exists description,
    headed description /\ PyStr.strip description = description /\
    forall St (task_manager : Store.t St) (s : St),
      process_voice_command task_manager command_text s
      = try_except
          (Store.create_task task_manager description
             (priority_of (normalized command_text)))
          (fun e => ret (apology e)) s.
Proof.
  intros Hne. destruct (parse_nonblank command_text Hne) as (d & Hh & Hs & Hp).
  exists d. split; [exact Hh|]. split; [exact Hs|]. intros St tm s.
  destruct (parsed_parameters "create" d (normalized command_text))
    as (Ho & Hd & Hprio).
  unfold process_voice_command, try_except, bind, lift.
  rewrite Hp. cbn [action entity].
  change (String.eqb "create" "unknown") with false.
  change (String.eqb "task" "task") with true. cbv iota.
  unfold _process_task_command. cbn [parameters].
  rewrite Ho, Hd, Hprio.
  apply headed_not_empty, String.eqb_neq in Hh. rewrite Hh.
  reflexivity.
Qed.

Lemma priority_of_values (text : string) :
  priority_of text = "high" \/ priority_of text = "medium" \/
  priority_of text = "low".
Proof. unfold priority_of. case_ifs; auto. Qed.

(** X4: whatever the task store, [process_voice_command] answers a blank
    text with the generic guidance and leaves the store alone, and turns any
    other text into exactly one call of [create_task], with a description
    that is not empty and a priority among high, medium and low; the answer
    is what the call returns, or the apology when it raises an instance of
    [Exception]; any other exception it raises reaches the caller.  Hence two
    stores with the same [create_task] are not told apart: [complete_task],
    [list_tasks] and [delete_task] are never called. *)
Theorem process_voice_command_only_creates (command_text : string) :
  ((normalized command_text = "" /\
    forall St (task_manager : Store.t St) (s : St),
      process_voice_command task_manager command_text s
      = (Ret guidance_generic, s))
   \/ (normalized command_text <> "" /\
       exists description priority,
         description <> "" /\
         (priority = "high" \/ priority = "medium" \/ priority = "low") /\
         forall St (task_manager : Store.t St) (s : St),
           process_voice_command task_manager command_text s
           = match Store.create_task task_manager description priority s with
             | (Ret response, s') => (Ret response, s')
             | (Raise e, s') =>
                 if is_Exception e then (Ret (apology (str_of e)), s')
                 else (Raise e, s')
             end))
  /\ forall St (tm1 tm2 : Store.t St) (s : St),
       (forall d p s0,
          Store.create_task tm1 d p s0 = Store.create_task tm2 d p s0) ->
       process_voice_command tm1 command_text s
       = process_voice_command tm2 command_text s.
Proof.
  destruct (string_dec (normalized command_text) "") as [E|E].
  - split.
    + left. split; [exact E|]. intros. now apply process_blank.
    + intros St tm1 tm2 s _. now rewrite !process_blank.
  - destruct (process_nonblank command_text E) as (d & Hh & _ & Hp). split.
    + right. split; [exact E|].
      exists d, (priority_of (normalized command_text)).
      split; [now apply headed_not_empty|].
      split; [apply priority_of_values|]. intros St tm s. now rewrite Hp.
    + intros St tm1 tm2 s Hsame. rewrite !Hp. unfold try_except.
      now rewrite Hsame.
Qed.


(** X6: when [parse_command] returns the unknown command, the text has no
    word at all, so [_handle_unknown_command] answers with the generic
    guidance: its answers about tasks, files and the web are never given by
    [process_voice_command]. *)
Theorem unknown_command_gets_generic_guidance {St} (task_manager : Store.t St)
    (command_text : string) (cmd : VoiceCommand) (s : St) :
  VoiceCommandParser.parse_command command_text = Ret cmd ->
  action cmd = "unknown" ->
  _handle_unknown_command command_text = guidance_generic /\
  process_voice_command task_manager command_text s
  = (Ret guidance_generic, s).
Proof.
  intros Hp Ha.
  assert (E : normalized command_text = "").
  { destruct (string_dec (normalized command_text) "") as [E|E]; [exact E|].
    destruct (parse_nonblank command_text E) as (d & _ & _ & Hp').
    rewrite Hp' in Hp. injection Hp as <-. discriminate. }
  split; [now apply handle_unknown_blank|now apply process_blank].
Qed.

(** The dispatch of a command is either an answer made without the store,
    which is left as it was, or exactly one call of the store, whose outcome
    is passed on unchanged. *)
Lemma dispatch_is_at_most_one_store_call {St} (task_manager : Store.t St)
    (command : VoiceCommand) (s : St) :
  (exists response,
     _process_task_command task_manager command s = (Ret response, s))
  \/ (exists description priority,
        _process_task_command task_manager command s
        = Store.create_task task_manager description priority s)
  \/ (exists description,
        _process_task_command task_manager command s
        = Store.complete_task task_manager description s)
  \/ _process_task_command task_manager command s
     = Store.list_tasks task_manager s
  \/ (exists description,
        _process_task_command task_manager command s
        = Store.delete_task task_manager description s).
Proof.
  unfold _process_task_command, ret.
  case_ifs; eauto 7.
Qed.

End ProcessorOutcomes.

Section ProcessorOutcomesLatin1.
Import ClaraTaskProcessor.
#[local] Existing Instance PyStr.Latin1.

Lemma unknown_command_gets_generic_guidance_witness :
  process_voice_command counting_store (String "009" "  ") 0
  = (Ret guidance_generic, 0).
Proof.
  refine (proj2 (unknown_command_gets_generic_guidance counting_store
                   (String "009" "  ")
                   (mkVoiceCommand "unknown" "unknown" [("raw_text", "")] "")
                   0 _ _)).
  - vm_compute; reflexivity.
  - reflexivity.
Defined.

Lemma process_voice_command_only_creates_witness :
  ClaraTaskProcessor.process_voice_command ClaraTaskProcessor.counting_store
    "show my tasks" 0
  = ClaraTaskProcessor.process_voice_command
      (Store.mk nat (fun _ _ n => (Ret "created", S n))
         (fun _ n => (Raise (mkExc false "complete_task called"), n))
         (fun n => (Raise (mkExc false "list_tasks called"), n))
         (fun _ n => (Raise (mkExc false "delete_task called"), n)))
      "show my tasks" 0.
Proof.
  apply (proj2 (process_voice_command_only_creates "show my tasks")).
  reflexivity.
Defined.

End ProcessorOutcomesLatin1.

(* ------------------------------------------------------------------ *)
(** ** The callers of the processor *)

Section Callers.
Context {U : PyStr.Unicode}.

Lemma is_command_not_blank (text : string) :
  ClaraVoiceAgent._is_command text = true -> normalized text <> "".
Proof.
  unfold ClaraVoiceAgent._is_command, normalized. intros H E.
  rewrite blank_has_no_word in H; [discriminate|reflexivity|exact E].
Qed.

(** X7: a speech that [_is_command] takes for a command is never blank, so
    an agent with task management sends it to [create_task]: with the task
    manager as store, the answer is "Task created: " and a description that
    is not empty, one pending task is stored, and the conversation grows by
    the one assistant message about the command when the context is kept. *)
Theorem command_speech_creates_task (rt : TaskManager.Runtime)
    (keep_context : bool) (speech : string) (db : TaskManager.tasks_db)
    (messages : list ClaraVoiceAgent.ChatMessage) :
  ClaraVoiceAgent._is_command speech = true ->
  normalized speech <> "" /\
  exists description,
    description <> "" /\
    ClaraVoiceAgent._process_task_command (Some (TaskManager.store rt))
      keep_context speech (db, messages)
    = (Ret ("Task created: " ++ description),
       (TaskManager.db_set
          (new_task (TaskManager.uuid4 rt) (TaskManager.now rt) description
                    (priority_of (normalized speech))) db,
        if keep_context
        then (messages
                ++ [task_message speech ("Task created: " ++ description)])%list
        else messages)).
Proof.
  intros H. apply is_command_not_blank in H. split; [exact H|].
  destruct (process_nonblank speech H) as (d & Hh & _ & Hp).
  exists d. split; [now apply headed_not_empty|].
  unfold ClaraVoiceAgent._process_task_command. rewrite Hp. reflexivity.
Qed.

(** X8: the agent's wrapper around the processor.  Without a processor it
    answers that task management is not available and changes nothing.
    With one, whatever its store: when the processor returns, the agent
    returns the same answer and store and adds exactly one assistant message
    naming the command and the answer when the context is kept, none
    otherwise; when the processor raises, the exception is no instance of
    [Exception] (the processor has caught those), the agent raises it in
    turn and adds no message.  So the agent's own handler is never entered
    and no answer starts with "Error processing task". *)
Theorem agent_passes_processor_answer {St} (task_manager : Store.t St)
    (keep_context : bool) (command : string) (s : St)
    (messages : list ClaraVoiceAgent.ChatMessage) :
  ClaraVoiceAgent._process_task_command (St := St) None keep_context command
    (s, messages)
  = (Ret "Task management is not available.", (s, messages))
  /\ match ClaraTaskProcessor.process_voice_command task_manager command s
     with
     | (Ret response, s') =>
         ClaraVoiceAgent._process_task_command (Some task_manager)
           keep_context command (s, messages)
         = (Ret response,
            (s', if keep_context
                 then (messages ++ [task_message command response])%list
                 else messages))
     | (Raise e, s') =>
         is_Exception e = false /\
         raised_by_store task_manager s e s' /\
         ClaraVoiceAgent._process_task_command (Some task_manager)
           keep_context command (s, messages)
         = (Raise e, (s', messages))
     end.
Proof.
  split; [reflexivity|].
  unfold ClaraVoiceAgent._process_task_command.
  destruct (process_voice_command_outcome task_manager command s)
    as [(r & s' & H)|(e & s' & H & He & cmd & _ & Hd)]; rewrite H.
  - reflexivity.
  - rewrite He. repeat split.
    eapply dispatch_raises_from_store; exact Hd.
Qed.


Lemma serve_app (requests more : list (TaskManager.Runtime * string))
    (db : TaskManager.tasks_db) :
  serve (requests ++ more) db = serve more (serve requests db).
Proof. unfold serve. apply fold_left_app. Qed.

(** X10: in the store of a [VoiceServiceIntegrator], whatever requests it
    served, every task is pending, has no completion time and no due date,
    and has a description that is not empty: no voice request completes,
    deletes or dates a task. *)
Theorem served_tasks_stay_pending
    (requests : list (TaskManager.Runtime * string)) (task : TaskManager.Task) :
  In task (serve requests []) ->
  TaskManager.status task = "pending" /\
  TaskManager.completed_at task = None /\
  TaskManager.due_date task = None /\
  TaskManager.description task <> "" /\
  TaskManager.voice_created task = true.
Proof.
  revert task.
  induction requests as [|[rt text] requests IH] using rev_ind;
    intros task; [intros []|].
  rewrite serve_app. unfold serve at 1. cbn [fold_left fst snd].
  unfold VoiceServiceIntegrator.process_voice_request.
  destruct (string_dec (normalized text) "") as [E|E].
  - rewrite process_blank by exact E. apply IH.
  - destruct (process_nonblank text E) as (d & Hh & _ & Hp).
    rewrite Hp. cbn. intros Hin.
    apply db_set_in in Hin as [->|Hin]; [|now apply IH].
    cbn. repeat split. now apply headed_not_empty.
Qed.

End Callers.

Section CallersLatin1.
#[local] Existing Instance PyStr.Latin1.

Lemma command_speech_creates_task_witness :
  ClaraVoiceAgent._is_command "Delete the report" = true /\
  exists description,
    description <> "" /\
    ClaraVoiceAgent._process_task_command
      (Some (TaskManager.store (TaskManager.mkRuntime "u1" 7)))
      true "Delete the report" ([], [])
    = (Ret ("Task created: " ++ description),
       (TaskManager.db_set
          (new_task "u1" 7 description
                    (priority_of (normalized "Delete the report"))) [],
        ([] ++ [task_message "Delete the report"
                  ("Task created: " ++ description)])%list)).
Proof.
  split; [reflexivity|].
  exact (proj2 (command_speech_creates_task (TaskManager.mkRuntime "u1" 7)
                  true "Delete the report" [] [] eq_refl)).
Defined.

Lemma served_tasks_stay_pending_witness :
  TaskManager.status (new_task "u2" 2 "complete buy milk" "medium") = "pending".
Proof.
  apply (served_tasks_stay_pending
           [ (TaskManager.mkRuntime "u1" 1, "Buy milk");
             (TaskManager.mkRuntime "u2" 2, "complete buy milk");
             (TaskManager.mkRuntime "u3" 3, "delete buy milk") ]).
  vm_compute. right. left. reflexivity.
Defined.

End CallersLatin1.

(* ------------------------------------------------------------------ *)
(** ** More on the task store *)

Section StoreOperations.
Context {U : PyStr.Unicode}.
Import TaskManager.

Lemma db_get_set_same (task : Task) (db : tasks_db) :
  db_get (id task) (db_set task db) = Some task.
Proof.
  unfold db_get. induction db as [|x db IH]; simpl.
  - now rewrite String.eqb_refl.
  - destruct (String.eqb (id x) (id task)) eqn:E; simpl.
    + now rewrite String.eqb_refl.
    + now rewrite E.
Qed.

Lemma db_get_set_other (k : string) (task : Task) (db : tasks_db) :
  k <> id task -> db_get k (db_set task db) = db_get k db.
Proof.
  intros Hk. unfold db_get. induction db as [|x db IH]; simpl.
  - destruct (String.eqb (id task) k) eqn:E; [|reflexivity].
    apply String.eqb_eq in E. congruence.
  - destruct (String.eqb (id x) (id task)) eqn:E; simpl.
    + apply String.eqb_eq in E.
      destruct (String.eqb (id task) k) eqn:E1;
        [apply String.eqb_eq in E1; congruence|].
      destruct (String.eqb (id x) k) eqn:E2;
        [apply String.eqb_eq in E2; congruence|reflexivity].
    + now rewrite IH.
Qed.

Lemma db_set_fresh (task : Task) (db : tasks_db) :
  db_get (id task) db = None -> db_set task db = (db ++ [task])%list.
Proof.
  unfold db_get. induction db as [|x db IH]; simpl; [reflexivity|].
  destruct (String.eqb (id x) (id task)); [discriminate|].
  intros H. now rewrite IH.
Qed.

Lemma db_set_length (task : Task) (db : tasks_db) :
  List.length (db_set task db)
  = match db_get (id task) db with
    | Some _ => List.length db
    | None => S (List.length db)
    end.
Proof.
  unfold db_get. induction db as [|x db IH]; simpl; [reflexivity|].
  destruct (String.eqb (id x) (id task)); simpl; [reflexivity|].
  rewrite IH. now destruct (find _ db).
Qed.

(** X11: after [create_task], looking the new id up gives the created task,
    pending and without completion time, and every other id gives what it
    gave before.  With an id that is not in the store the task goes to the
    end of it, so that the store keeps the order of creation; with an id
    that is in the store the task takes the place of the one that had it. *)
Theorem create_task_then_lookup (task_id : string) (now : Z)
    (description priority : string) (due_date : option Z) (db : tasks_db) :
  fst (create_task task_id now description priority due_date db)
  = "Task created: " ++ description
  /\ _find_task task_id
       (snd (create_task task_id now description priority due_date db))
     = Some (mkTask task_id description priority "pending" now None
               due_date true)
  /\ (forall k,
        k <> task_id ->
        db_get k (snd (create_task task_id now description priority
                         due_date db))
        = db_get k db)
  /\ (db_get task_id db = None ->
      snd (create_task task_id now description priority due_date db)
      = (db ++ [mkTask task_id description priority "pending" now None
                  due_date true])%list)
  /\ (db_get task_id db <> None ->
      List.length
        (snd (create_task task_id now description priority due_date db))
      = List.length db).
Proof.
  unfold create_task; cbn [fst snd].
  set (task := mkTask task_id description priority "pending" now None
                      due_date true).
  split; [reflexivity|]. split; [|split; [|split]].
  - pose proof (db_get_set_same task db) as H.
    unfold _find_task. subst task. cbn [id] in H. now rewrite H.
  - intros k Hk. now apply db_get_set_other.
  - intros H. now apply (db_set_fresh task).
  - intros H. rewrite db_set_length. subst task. cbn [id].
    now destruct (db_get task_id db).
Qed.

(** In a store without repeated ids, a task splits the store in two parts
    that do not hold its id. *)
Lemma split_at_task (t : Task) (db : tasks_db) :
  NoDup (map id db) -> In t db ->
  exists before after,
    db = (before ++ t :: after)%list /\
    (forall x, In x before -> id x <> id t) /\
    (forall x, In x after -> id x <> id t).
Proof.
  intros Hnd Hin. apply in_split in Hin as (before & after & ->).
  exists before, after. split; [reflexivity|].
  rewrite map_app in Hnd. cbn [map] in Hnd.
  pose proof (NoDup_remove_2 _ _ _ Hnd) as Hnin.
  split; intros x Hx E; apply Hnin, in_or_app; [left|right];
    rewrite <- E; now apply in_map.
Qed.

Lemma db_del_split (t : Task) (before after : list Task) :
  (forall x, In x before -> id x <> id t) ->
  (forall x, In x after -> id x <> id t) ->
  db_del (id t) (before ++ t :: after)%list = (before ++ after)%list.
Proof.
  intros Hb Ha. unfold db_del.
  assert (Hkeep : forall l, (forall x, In x l -> id x <> id t) ->
                            filter (fun x => negb (String.eqb (id x) (id t))) l
                            = l).
  { induction l as [|x l IH]; simpl; intros H; [reflexivity|].
    destruct (String.eqb (id x) (id t)) eqn:E; simpl.
    - apply String.eqb_eq in E. exfalso. apply (H x); auto.
    - rewrite IH; auto. }
  rewrite filter_app. simpl. rewrite String.eqb_refl. simpl.
  now rewrite !Hkeep.
Qed.

Lemma db_mutate_split (t : Task) (f : Task -> Task)
    (before after : list Task) :
  (forall x, In x before -> id x <> id t) ->
  db_mutate (id t) f (before ++ t :: after)%list
  = (before ++ f t :: after)%list.
Proof.
  induction before as [|x before IH]; simpl; intros Hb.
  - now rewrite String.eqb_refl.
  - destruct (String.eqb (id x) (id t)) eqn:E.
    + apply String.eqb_eq in E. exfalso. apply (Hb x); auto.
    + rewrite IH; auto.
Qed.

Lemma find_task_in (identifier : string) (db : tasks_db) (t : Task) :
  _find_task identifier db = Some t -> In t db.
Proof.
  unfold _find_task, db_get.
  destruct (find (fun t0 => String.eqb (id t0) identifier) db) eqn:E.
  - intros H; injection H as <-. now apply find_some in E.
  - intros H. now apply find_some in H.
Qed.

(** X12: in a store reached from the empty one, when the lookup finds a
    task, [delete_task] answers "Deleted task: " with its description and
    removes that task and no other: the tasks before it and after it stay,
    in their order; the deleted id is no longer a key of the store. *)
Theorem delete_task_removes_one (calls : list call) (task_identifier : string)
    (t : Task) :
  _find_task task_identifier (run calls []) = Some t ->
  exists before after,
    run calls [] = (before ++ t :: after)%list /\
    delete_task task_identifier (run calls [])
    = ("Deleted task: " ++ description t, (before ++ after)%list) /\
    db_get (id t) (before ++ after)%list = None.
Proof.
  intros Hf.
  assert (Hnd : NoDup (map id (run calls []))).
  { apply run_keeps_ids_unique. constructor. }
  destruct (split_at_task t _ Hnd (find_task_in _ _ _ Hf))
    as (before & after & Hdb & Hb & Ha).
  exists before, after. split; [exact Hdb|].
  unfold delete_task. rewrite Hf, Hdb, db_del_split by assumption.
  split; [reflexivity|].
  apply find_all_false. intros x Hx. apply String.eqb_neq.
  apply in_app_or in Hx as [Hx|Hx]; auto.
Qed.

(** X13: in a store reached from the empty one, when the lookup finds a
    task, [complete_task] answers "Marked as completed: " with its
    description and changes that task and no other: the store keeps its
    length and order, and the task keeps its id, description, priority,
    creation time and due date, its status becoming "completed" and its
    completion time the time of the call. *)
Theorem complete_task_changes_one (calls : list call) (now : Z)
    (task_identifier : string) (t : Task) :
  _find_task task_identifier (run calls []) = Some t ->
  exists before after,
    run calls [] = (before ++ t :: after)%list /\
    complete_task now task_identifier (run calls [])
    = ("Marked as completed: " ++ description t,
       (before
          ++ mkTask (id t) (description t) (priority t) "completed"
               (created_at t) (Some now) (due_date t) (voice_created t)
          :: after)%list).
Proof.
  intros Hf.
  assert (Hnd : NoDup (map id (run calls []))).
  { apply run_keeps_ids_unique. constructor. }
  destruct (split_at_task t _ Hnd (find_task_in _ _ _ Hf))
    as (before & after & Hdb & Hb & Ha).
  exists before, after. split; [exact Hdb|].
  unfold complete_task. rewrite Hf, Hdb, db_mutate_split by assumption.
  reflexivity.
Qed.

End StoreOperations.

Section StoreOperationsLatin1.
Import TaskManager.
#[local] Existing Instance PyStr.Latin1.

Lemma create_task_then_lookup_witness :
  snd (create_task "t2" 5 "call bob" "low" None
         [mkTask "t1" "buy milk" "high" "pending" 1 None None true])
  = [ mkTask "t1" "buy milk" "high" "pending" 1 None None true;
      mkTask "t2" "call bob" "low" "pending" 5 None None true ].
Proof.
  apply (proj1 (proj2 (proj2 (proj2
           (create_task_then_lookup "t2" 5 "call bob" "low" None
              [mkTask "t1" "buy milk" "high" "pending" 1 None None true]))))).
  reflexivity.
Defined.

Lemma delete_task_removes_one_witness :
  exists before after,
    delete_task "MILK"
      (run [ CreateTask "t1" 1 "call bob" "low" None;
             CreateTask "t2" 2 "buy milk" "high" None;
             CreateTask "t3" 3 "milk the cow" "medium" None ] [])
    = ("Deleted task: buy milk", (before ++ after)%list).
Proof.
  destruct (delete_task_removes_one
              [ CreateTask "t1" 1 "call bob" "low" None;
                CreateTask "t2" 2 "buy milk" "high" None;
                CreateTask "t3" 3 "milk the cow" "medium" None ]
              "MILK" (mkTask "t2" "buy milk" "high" "pending" 2 None None true)
              eq_refl) as (before & after & _ & H & _).
  exists before, after. exact H.
Defined.

Lemma complete_task_changes_one_witness :
  exists before after,
    complete_task 9 "bob"
      (run [ CreateTask "t1" 1 "call bob" "low" None;
             CreateTask "t2" 2 "buy milk" "high" None ] [])
    = ("Marked as completed: call bob",
       (before
          ++ mkTask "t1" "call bob" "low" "completed" 1 (Some 9%Z) None true
          :: after)%list).
Proof.
  destruct (complete_task_changes_one
              [ CreateTask "t1" 1 "call bob" "low" None;
                CreateTask "t2" 2 "buy milk" "high" None ]
              9 "bob" (mkTask "t1" "call bob" "low" "pending" 1 None None true)
              eq_refl) as (before & after & _ & H).
  exists before, after. exact H.
Defined.

End StoreOperationsLatin1.

(* ------------------------------------------------------------------ *)
(** ** Completing twice, statuses, and the order of listings *)

Section StoreOrder.
Context {U : PyStr.Unicode}.
Import TaskManager.

Lemma find_map {A} (p : A -> bool) (h : A -> A) (l : list A) :
  (forall x, p (h x) = p x) ->
  find p (map h l) = option_map h (find p l).
Proof.
  intros Hp. induction l as [|x l IH]; simpl; [reflexivity|].
  rewrite Hp. destruct (p x); [reflexivity|exact IH].
Qed.

(** The lookup only reads ids and descriptions. *)
Lemma find_task_map (identifier : string) (h : Task -> Task) (db : tasks_db) :
  (forall x, id (h x) = id x) ->
  (forall x, description (h x) = description x) ->
  _find_task identifier (map h db) = option_map h (_find_task identifier db).
Proof.
  intros Hid Hd. unfold _find_task, db_get.
  rewrite !find_map.
  - destruct (find _ db); reflexivity.
  - intros x. now rewrite Hd.
  - intros x. now rewrite Hid.
Qed.

Lemma map_at_task (t : Task) (f : Task -> Task) (before after : list Task) :
  (forall x, In x before -> id x <> id t) ->
  (forall x, In x after -> id x <> id t) ->
  map (fun x => if String.eqb (id x) (id t) then f x else x)
      (before ++ t :: after)
  = (before ++ f t :: after)%list.
Proof.
  intros Hb Ha.
  assert (Hkeep : forall l, (forall x, In x l -> id x <> id t) ->
            map (fun x => if String.eqb (id x) (id t) then f x else x) l = l).
  { induction l as [|x l IH]; simpl; intros H; [reflexivity|].
    destruct (String.eqb (id x) (id t)) eqn:E.
    - apply String.eqb_eq in E. exfalso. apply (H x); auto.
    - rewrite IH; auto. }
  rewrite map_app. simpl. rewrite String.eqb_refl. now rewrite !Hkeep.
Qed.

(** X14: in a store reached from the empty one, completing a task that is
    found a second time succeeds like the first time and only moves its
    completion time to the time of the second call: the answer and the store
    are those of a single [complete_task] at that time. *)
Theorem complete_task_twice (calls : list call) (now1 now2 : Z)
    (task_identifier : string) (t : Task) :
  _find_task task_identifier (run calls []) = Some t ->
  complete_task now2 task_identifier
    (snd (complete_task now1 task_identifier (run calls [])))
  = complete_task now2 task_identifier (run calls []).
Proof.
  intros Hf.
  assert (Hnd : NoDup (map id (run calls []))).
  { apply run_keeps_ids_unique. constructor. }
  destruct (split_at_task t _ Hnd (find_task_in _ _ _ Hf))
    as (before & after & Hdb & Hb & Ha).
  unfold complete_task at 2 3. rewrite Hf. cbn [snd].
  rewrite Hdb in *. rewrite !db_mutate_split by assumption.
  assert (Hf1 : _find_task task_identifier
                  (before ++ mark_completed now1 t :: after)%list
                = Some (mark_completed now1 t)).
  { rewrite <- (map_at_task t (mark_completed now1) before after Hb Ha).
    rewrite find_task_map, Hf; [|intros x; now destruct (String.eqb _ _)..].
    simpl. now rewrite String.eqb_refl. }
  unfold complete_task. rewrite Hf1.
  change (id (mark_completed now1 t)) with (id t).
  now rewrite (db_mutate_split (mark_completed now1 t)) by assumption.
Qed.

(** A property of tasks that new tasks have and completion keeps holds in
    every store reached from the empty one. *)
Lemma run_invariant (P : Task -> Prop) :
  (forall task_id now description priority due_date,
     P (mkTask task_id description priority "pending" now None due_date true)) ->
  (forall now t, P t -> P (mark_completed now t)) ->
  forall calls db,
    (forall t, In t db -> P t) -> forall t, In t (run calls db) -> P t.
Proof.
  intros Hnew Hdone.
  induction calls as [|c calls IH]; intros db Hdb; simpl; [exact Hdb|].
  apply IH. intros t.
  destruct c as [tid tnow d p due|tnow ident|f|ident]; simpl.
  - intros Hin. apply db_set_in in Hin as [->|Hin]; auto.
  - unfold complete_task. destruct (_find_task ident db); simpl; [|auto].
    intros Hin. apply db_mutate_in in Hin as [Hin|(old & Hold & ->)]; auto.
  - auto.
  - unfold delete_task. destruct (_find_task ident db); simpl; [|auto].
    intros Hin. apply db_del_in in Hin as [Hin _]. auto.
Qed.

(** X15: in every store reached from the empty one, the status of a task is
    "pending" or "completed", a pending task has no completion time, and
    every task is marked as created by voice. *)
Theorem reachable_status_values (calls : list call) (task : Task) :
  In task (run calls []) ->
  (status task = "pending" /\ completed_at task = None
   \/ status task = "completed")
  /\ voice_created task = true.
Proof.
  apply (run_invariant
           (fun t => (status t = "pending" /\ completed_at t = None
                      \/ status t = "completed")
                     /\ voice_created t = true)).
  - intros. split; [left; split|]; reflexivity.
  - intros now t [_ Hv]. split; [right; reflexivity|exact Hv].
  - intros t [].
Qed.

Lemma key_lt_differs (key : nat * Z) (x t : Task) :
  key_lt (sort_key x) (sort_key t) = true -> has_key key x = true ->
  has_key key t = false.
Proof.
  unfold key_lt, has_key. intros Hlt Hx.
  apply andb_true_iff in Hx as [H1 H2].
  apply Nat.eqb_eq in H1. apply Z.eqb_eq in H2.
  apply andb_false_iff.
  apply orb_true_iff in Hlt as [H|H].
  - apply Nat.ltb_lt in H. left. apply Nat.eqb_neq. lia.
  - apply andb_true_iff in H as [_ H]. apply Z.ltb_lt in H.
    right. apply Z.eqb_neq. lia.
Qed.

Lemma insert_task_keeps_ties (key : nat * Z) (t : Task) (l : list Task) :
  filter (has_key key) (insert_task t l) = filter (has_key key) (t :: l).
Proof.
  induction l as [|x l IH]; [reflexivity|].
  cbn [insert_task].
  destruct (key_lt (sort_key x) (sort_key t)) eqn:E; [|reflexivity].
  cbn [filter] in *. rewrite IH.
  destruct (has_key key x) eqn:Ex; [|reflexivity].
  now rewrite (key_lt_differs key x t E Ex).
Qed.

(** X16: the sort of [list_tasks] is stable: tasks with the same priority
    rank and the same creation time are listed in the order of the store. *)
Theorem sort_tasks_keeps_ties (key : nat * Z) (tasks : list Task) :
  filter (has_key key) (sort_tasks tasks) = filter (has_key key) tasks.
Proof.
  induction tasks as [|t tasks IH]; [reflexivity|].
  cbn [sort_tasks fold_right]. fold (sort_tasks tasks).
  rewrite insert_task_keeps_ties. cbn [filter]. now rewrite IH.
Qed.

Lemma listed_before_not_lt (t y : Task) :
  listed_before t y -> key_lt (sort_key y) (sort_key t) = false.
Proof.
  unfold listed_before, key_lt, sort_key; cbn [fst snd]. intros H.
  apply orb_false_iff. split.
  - apply Nat.ltb_ge. lia.
  - apply andb_false_iff.
    destruct H as [H|[H1 H2]].
    + left. apply Nat.eqb_neq. lia.
    + right. apply Z.ltb_ge. lia.
Qed.

Lemma insert_task_filter (f : Task -> bool) (t : Task) (l : list Task) :
  StronglySorted listed_before l ->
  filter f (insert_task t l)
  = if f t then insert_task t (filter f l) else filter f l.
Proof.
  induction 1 as [|x l Hs IH Hx]; cbn [insert_task filter].
  - now destruct (f t).
  - destruct (key_lt (sort_key x) (sort_key t)) eqn:E.
    + cbn [filter]. rewrite IH.
      destruct (f t), (f x); cbn [insert_task]; rewrite ?E; reflexivity.
    + cbn [filter]. destruct (f t) eqn:Et; [|reflexivity].
      apply key_lt_false in E.
      assert (Hall : Forall (listed_before t) (x :: l)).
      { constructor; [exact E|]. rewrite Forall_forall in Hx |- *.
        intros y Hy. eapply listed_before_trans; eauto. }
      assert (Hhead : forall l',
                Forall (listed_before t) l' -> insert_task t l' = t :: l').
      { intros [|y l'] Hl'; [reflexivity|]. cbn [insert_task].
        inversion Hl' as [|? ? Hy _]; subst.
        now rewrite (listed_before_not_lt t y Hy). }
      symmetry. apply (Hhead (filter f (x :: l))).
      rewrite Forall_forall in Hall |- *. intros y Hy.
      apply filter_In in Hy as [Hy _]. auto.
Qed.

Lemma sort_tasks_filter (f : Task -> bool) (tasks : list Task) :
  sort_tasks (filter f tasks) = filter f (sort_tasks tasks).
Proof.
  induction tasks as [|t tasks IH]; [reflexivity|].
  cbn [sort_tasks fold_right filter]. fold (sort_tasks tasks).
  rewrite insert_task_filter by apply sort_tasks_sorted.
  destruct (f t); [|exact IH].
  cbn [fold_right]. fold (sort_tasks (filter f tasks)). now rewrite IH.
Qed.

(** X17: [list_tasks] with a status filter shows the tasks of that status
    in the order in which the unfiltered listing shows them, and answers
    "No tasks found." when no task has that status; the empty string as
    filter is no filter. *)
Theorem list_tasks_with_filter (wanted : string) (db : tasks_db) :
  list_tasks (Some "") db = list_tasks None db
  /\ (wanted <> "" ->
      list_tasks (Some wanted) db
      = match filter (fun t => String.eqb (status t) wanted) (sort_tasks db)
        with
        | [] => "No tasks found."
        | shown => listing shown
        end).
Proof.
  split; [reflexivity|]. intros Hw.
  rewrite <- sort_tasks_filter.
  unfold list_tasks. apply String.eqb_neq in Hw. rewrite Hw.
  destruct (filter _ db) as [|t l] eqn:E; [reflexivity|].
  destruct (sort_tasks (t :: l)) as [|t' l'] eqn:Es; [|reflexivity].
  pose proof (sort_tasks_perm (t :: l)) as Hp. rewrite Es in Hp.
  apply Permutation_sym, Permutation_nil in Hp. discriminate.
Qed.

End StoreOrder.

Section StoreOrderLatin1.
Import TaskManager.
#[local] Existing Instance PyStr.Latin1.

Lemma complete_task_twice_witness :
  complete_task 9 "bob"
    (snd (complete_task 5 "bob"
            (run [ CreateTask "t1" 1 "call bob" "low" None;
                   CreateTask "t2" 2 "buy milk" "high" None ] [])))
  = ("Marked as completed: call bob",
     [ mkTask "t1" "call bob" "low" "completed" 1 (Some 9%Z) None true;
       mkTask "t2" "buy milk" "high" "pending" 2 None None true ]).
Proof.
  refine (eq_trans
            (complete_task_twice
               [ CreateTask "t1" 1 "call bob" "low" None;
                 CreateTask "t2" 2 "buy milk" "high" None ]
               5 9 "bob"
               (mkTask "t1" "call bob" "low" "pending" 1 None None true)
               eq_refl) _).
  reflexivity.
Defined.

Lemma reachable_status_values_witness :
  voice_created (mkTask "t2" "call bob" "low" "pending" 2 None None true) = true.
Proof.
  apply (reachable_status_values
           [ CreateTask "t1" 1 "buy milk" "high" None;
             CreateTask "t2" 2 "call bob" "low" None;
             CompleteTask 5 "milk" ]).
  vm_compute. right. left. reflexivity.
Defined.

Lemma list_tasks_with_filter_witness :
  list_tasks (Some "completed")
    [ mkTask "t1" "buy milk" "low" "completed" 1 (Some 4%Z) None true;
      mkTask "t2" "call bob" "high" "pending" 2 None None true;
      mkTask "t3" "pay rent" "high" "completed" 3 (Some 5%Z) None true ]
  = listing
      [ mkTask "t3" "pay rent" "high" "completed" 3 (Some 5%Z) None true;
        mkTask "t1" "buy milk" "low" "completed" 1 (Some 4%Z) None true ].
Proof.
  refine (eq_trans
            (proj2 (list_tasks_with_filter "completed" _) _) _).
  - discriminate.
  - reflexivity.
Defined.

End StoreOrderLatin1.

(* ------------------------------------------------------------------ *)
(** ** Where the description comes from *)

Section DescriptionOrigin.
Context {U : PyStr.Unicode}.
Import PyStr.

Lemma sapp_assoc (a b c : string) : (a ++ b) ++ c = a ++ (b ++ c).
Proof. induction a as [|x a IH]; simpl; [reflexivity|now rewrite IH]. Qed.

Lemma sapp_nil_r (a : string) : a ++ "" = a.
Proof. induction a as [|x a IH]; simpl; [reflexivity|now rewrite IH]. Qed.

Lemma suffix_of_refl (t : string) : suffix_of t t.
Proof. now exists "". Qed.

Lemma suffix_of_tail (t : string) (c : ascii) (s : string) :
  suffix_of t (String c s) -> suffix_of t s.
Proof.
  intros [pre ->]. exists (pre ++ String c ""). now rewrite sapp_assoc.
Qed.

Lemma suffix_of_strip_prefix (t p s s' : string) :
  strip_prefix p s = Some s' -> suffix_of t s -> suffix_of t s'.
Proof.
  revert s. induction p as [|a p IH]; intros s; simpl.
  - intros H; now injection H as <-.
  - destruct s as [|b s]; [discriminate|].
    destruct (Ascii.eqb a b); [|discriminate].
    intros H Hs. apply (IH s H). eapply suffix_of_tail; eassumption.
Qed.

Lemma take_split (n : nat) (s : string) : exists rest, s = take n s ++ rest.
Proof.
  revert s. induction n as [|n IH]; intros s; [now exists s; destruct s|].
  destruct s as [|c s]; [now exists ""|].
  destruct (IH s) as [rest H]. exists rest. simpl. now rewrite <- H.
Qed.

Lemma part_of_take (t s : string) (n : nat) :
  suffix_of t s -> part_of t (take n s).
Proof.
  intros [pre ->]. destruct (take_split n s) as [rest H].
  exists pre, rest. now rewrite <- H.
Qed.


Lemma part_of_suffix (t s v : string) :
  suffix_of t s -> part_of s v -> part_of t v.
Proof.
  intros [pre ->] (p & q & ->). exists (pre ++ p), q. now rewrite !sapp_assoc.
Qed.





Lemma prefix_app (v post : string) : prefix v (v ++ post) = true.
Proof.
  induction v as [|a v IH]; simpl; [now destruct post|].
  destruct (ascii_dec a a); [exact IH|congruence].
Qed.

Lemma contains_prefix (v h : string) :
  prefix v h = true -> contains v h = true.
Proof. intros H. destruct h; cbn [contains]; now rewrite H. Qed.

Lemma contains_cons (v : string) (c : ascii) (h : string) :
  contains v h = true -> contains v (String c h) = true.
Proof.
  intros H. cbn [contains]. rewrite H. now destruct (prefix v (String c h)).
Qed.

Lemma part_contains (t v : string) : part_of t v -> contains v t = true.
Proof.
  intros (pre & post & ->). induction pre as [|c pre IH]; cbn [append].
  - apply contains_prefix, prefix_app.
  - apply contains_cons, IH.
Qed.

End DescriptionOrigin.

Section CapturedPieces.
Context {U : PyStr.Unicode}.
Import re.

Lemma rep_inv_suffix {R} (t : string) (p : ascii -> bool) (s : string) :
  forall lo hi (k : string -> option R) x,
    rep p lo hi s k = Some x -> suffix_of t s ->
    exists s', suffix_of t s' /\ k s' = Some x.
Proof.
  induction s as [|c s IH]; intros lo hi k x; simpl.
  - destruct (Nat.eqb lo 0); [eauto|discriminate].
  - destruct (p c && _).
    + destruct (rep p (Nat.pred lo) (option_map Nat.pred hi) s k) eqn:E.
      * intros H Hs; injection H as <-.
        eapply IH; [eassumption|]. eapply suffix_of_tail; eassumption.
      * destruct (Nat.eqb lo 0); [eauto|discriminate].
    + destruct (Nat.eqb lo 0); [eauto|discriminate].
Qed.

Lemma groups_part_set (t : string) (n : nat) (v : string) (g : groups) :
  part_of t v -> groups_part t g -> groups_part t (set_group n v g).
Proof.
  intros Hv Hg m w. unfold set_group. simpl.
  destruct (Nat.eqb n m); [|apply Hg].
  intros H; now injection H as <-.
Qed.

(** The groups of a match hold pieces of the text. *)
Lemma rmatch_inv_part {R} (t : string) (r : regex) :
  forall s g (k : string -> groups -> option R) x,
    rmatch r s g k = Some x -> suffix_of t s -> groups_part t g ->
    exists s' g', suffix_of t s' /\ groups_part t g' /\ k s' g' = Some x.
Proof.
  induction r as [l|cs lo hi|r1 IH1 r2 IH2|r1 IH1 r2 IH2|r1 IH1|m r1 IH1];
    intros s g k x; simpl.
  - destruct (PyStr.strip_prefix l s) as [s'|] eqn:E; [|discriminate].
    intros H Hs Hg. exists s', g. repeat split; auto.
    eapply suffix_of_strip_prefix; eassumption.
  - intros H Hs Hg. apply (rep_inv_suffix t) in H as (s' & Hs' & H); eauto.
  - intros H Hs Hg. apply IH1 in H as (s1 & g1 & Hs1 & Hg1 & H); auto.
    apply IH2 in H; auto.
  - destruct (rmatch r1 s g k) eqn:E.
    + intros H Hs Hg; injection H as <-. eapply IH1; eassumption.
    + intros H Hs Hg. eapply IH2; eassumption.
  - destruct (rmatch r1 s g k) eqn:E.
    + intros H Hs Hg; injection H as <-. eapply IH1; eassumption.
    + eauto 6.
  - intros H Hs Hg. apply IH1 in H as (s1 & g1 & Hs1 & Hg1 & H); auto.
    eexists _, _. split; [exact Hs1|]. split; [|exact H].
    apply groups_part_set; [|exact Hg1]. now apply part_of_take.
Qed.

Lemma match_at_part (r : regex) (s : string) (pos : nat) (m : Match) :
  match_at r s pos = Some m ->
  part_of s (m_text m) /\ groups_part s (m_groups m).
Proof.
  unfold match_at. intros H.
  apply (rmatch_inv_part s) in H as (s' & g' & Hs' & Hg' & H).
  - injection H as <-. simpl. split; [|exact Hg'].
    apply part_of_take, suffix_of_refl.
  - apply suffix_of_refl.
  - intros n v H'. discriminate.
Qed.

Lemma search_from_part (t : string) (r : regex) (s : string) :
  forall pos m, search_from r s pos = Some m -> suffix_of t s ->
                part_of t (m_text m) /\ groups_part t (m_groups m).
Proof.
  assert (Hat : forall s pos m, match_at r s pos = Some m -> suffix_of t s ->
                  part_of t (m_text m) /\ groups_part t (m_groups m)).
  { intros s0 pos m H Hs. apply match_at_part in H as [H1 H2].
    split; [now apply (part_of_suffix t s0)|].
    intros n v Hv.
    apply (part_of_suffix t s0); [exact Hs|exact (H2 n v Hv)]. }
  induction s as [|c s IH]; intros pos m; simpl.
  - destruct (match_at r "" pos) eqn:E; [|discriminate].
    intros H Hs; injection H as <-. eapply Hat; eassumption.
  - destruct (match_at r (String c s) pos) eqn:E.
    + intros H Hs; injection H as <-. eapply Hat; eassumption.
    + intros H Hs. eapply IH; [eassumption|].
      eapply suffix_of_tail; eassumption.
Qed.

Lemma search_part (r : regex) (t : string) (m : Match) :
  search r t = Some m ->
  part_of t (m_text m) /\ groups_part t (m_groups m).
Proof. intros H. eapply search_from_part; [exact H|apply suffix_of_refl]. Qed.

Lemma last_some_in {A} (l : list (option A)) (a : A) :
  last_some l = Some a -> In (Some a) l.
Proof.
  induction l as [|o l IH]; simpl; [discriminate|].
  destruct (last_some l) as [b|].
  - intros H. right. now apply IH.
  - intros ->. now left.
Qed.


(** X19: a time reference among the parameters of a parsed command is the
    full text of a match of one of the temporal patterns in the normalized
    utterance, which contains it. *)
Theorem time_reference_is_matched_text (text : string) (cmd : VoiceCommand)
    (reference : string) :
  VoiceCommandParser.parse_command text = Ret cmd ->
  action cmd <> "unknown" ->
  PyDict.get "time_reference" (parameters cmd) = Some reference ->
  (exists pattern m,
     In pattern VoiceCommandParser.time_patterns /\
     search pattern (normalized text) = Some m /\ m_text m = reference)
  /\ PyStr.contains reference (normalized text) = true.
Proof.
  intros Hp Ha Hr.
  destruct (parse_command_parameters text cmd Hp Ha) as [d Hd].
  rewrite Hd, get_update in Hr by apply extract_parameters_nodup.
  rewrite extract_parameters_time in Hr.
  destruct (last_some (time_matches (normalized text))) as [v|] eqn:E;
    [|discriminate].
  injection Hr as ->.
  apply last_some_in in E. unfold time_matches in E.
  apply in_map_iff in E as (p & Hm & Hin).
  destruct (search p (normalized text)) as [m|] eqn:Es; [|discriminate].
  injection Hm as Hm.
  split; [exists p, m; auto|].
  apply part_contains. rewrite <- Hm. now apply search_part in Es as [H _].
Qed.

End CapturedPieces.

Section CapturedPiecesLatin1.
Import re.
#[local] Existing Instance PyStr.Latin1.


Lemma time_reference_is_matched_text_witness :
  PyStr.contains "within 2 weeks" (normalized "Pay rent WITHIN 2 weeks") = true.
Proof.
  refine (proj2 (time_reference_is_matched_text "Pay rent WITHIN 2 weeks"
                   (mkVoiceCommand "create" "task"
                      [("operation", "create");
                       ("description", "pay rent within 2 weeks");
                       ("time_reference", "within 2 weeks");
                       ("priority", "medium")] "pay rent within 2 weeks")
                   "within 2 weeks" _ _ _)).
  - vm_compute; reflexivity.
  - vm_compute; discriminate.
  - reflexivity.
Defined.

End CapturedPiecesLatin1.

(* ------------------------------------------------------------------ *)
(** ** The advertised way to create a task *)

Section CreateATaskTo.
Context {U : PyStr.Unicode}.
Import re VoiceCommandParser.

Lemma strip_prefix_app (l s : string) : PyStr.strip_prefix l (l ++ s) = Some s.
Proof.
  induction l as [|a l IH]; simpl; [reflexivity|].
  now rewrite Ascii.eqb_refl.
Qed.

Lemma lit_step {R} (l s : string) (g : groups)
    (k : string -> groups -> option R) :
  rmatch (Lit l) (l ++ s) g k = k s g.
Proof. cbn [rmatch]. now rewrite strip_prefix_app. Qed.

(** One white space character before a text that starts with another
    character: [\s+] takes exactly that character. *)
Lemma ws_step {R} (c : ascii) (s : string) (g : groups)
    (k : string -> groups -> option R) :
  PyStr.is_space c = true -> headed s ->
  rmatch ws (String c s) g k = k s g.
Proof.
  intros Hc (a & r & -> & Ha). unfold ws, plus. cbn [rmatch].
  cbn [rep in_cset Nat.eqb Nat.pred option_map]. rewrite Hc, Ha.
  cbn [andb]. now destruct (k (String a r) g).
Qed.

Lemma take_all (s : string) : PyStr.take (String.length s) s = s.
Proof. induction s as [|c s IH]; simpl; [reflexivity|now rewrite IH]. Qed.

Lemma consumed_all (s : string) : consumed s "" = s.
Proof. unfold consumed. simpl. rewrite Nat.sub_0_r. apply take_all. Qed.

(** Greedy [.+] before a continuation that accepts the end of the text
    takes a whole line. *)
Lemma rep_dot_all {R} (s : string) (k : string -> option R) (x : R) :
  single_line s = true -> k "" = Some x ->
  forall lo, lo <= String.length s ->
             rep (in_cset CDot) lo None s k = Some x.
Proof.
  intros Hs Hk. induction s as [|c s IH]; intros lo Hlo; simpl in *.
  - replace lo with 0 by lia. exact Hk.
  - apply andb_true_iff in Hs as [Hc Hs]. rewrite Hc. simpl.
    rewrite (IH Hs (Nat.pred lo)) by lia. reflexivity.
Qed.

Lemma rest_takes_line (pos : nat) (s0 d : string) (g : groups) :
  single_line d = true -> d <> "" ->
  rmatch (rest 1) d g (final pos s0)
  = Some (mkMatch pos (consumed s0 "") (set_group 1 d g)).
Proof.
  intros Hd Hne. unfold rest, plus. cbn [rmatch].
  rewrite (rep_dot_all d _ (mkMatch pos (consumed s0 "") (set_group 1 d g))).
  - reflexivity.
  - exact Hd.
  - unfold final. now rewrite (consumed_all d).
  - destruct d; [congruence|simpl; lia].
Qed.

Lemma rstrip_app (a d : string) :
  clean_end d -> d <> "" -> PyStr.rstrip (a ++ d) = a ++ d.
Proof.
  intros Hc Hne. induction a as [|c a IH]; simpl; [exact Hc|].
  rewrite IH. destruct (a ++ d) eqn:E; [|reflexivity].
  destruct a; simpl in E; [congruence|discriminate].
Qed.

Lemma strip_fixed_facts (d : string) :
  PyStr.strip d = d -> d <> "" -> headed d /\ clean_end d.
Proof.
  intros Hs Hne.
  destruct d as [|c r]; [congruence|].
  pose proof (strip_head _ _ _ Hs) as Hc.
  split; [now exists c, r|].
  unfold clean_end. unfold PyStr.strip in Hs. simpl in Hs.
  now rewrite Hc in Hs.
Qed.

(** The first [create] pattern on "create a task to " and a line. *)
Lemma create_a_task_to_match (d : string) :
  headed d -> single_line d = true ->
  search (nth 0 create_patterns (Lit "")) ("create a task to " ++ d)
  = Some (mkMatch 0 ("create a task to " ++ d) [(1, d)]).
Proof.
  intros Hh Hd. apply search_first. unfold match_at.
  set (t := "create a task to " ++ d).
  change (fun s' g => Some (mkMatch 0 (consumed t s') g)) with (final 0 t).
  assert (Hne : d <> "") by now apply headed_not_empty.
  assert (H6 : rmatch (rest 1) d [] (final 0 t)
               = Some (mkMatch 0 t [(1, d)])).
  { rewrite rest_takes_line by assumption. now rewrite consumed_all. }
  assert (H5 : rmatch (Cat (Opt (cat [Lit "to"; ws])) (rest 1))
                 ("to " ++ d) [] (final 0 t)
               = Some (mkMatch 0 t [(1, d)])).
  { cbn [rmatch cat].
    change ("to " ++ d) with ("to" ++ String " " d).
    rewrite strip_prefix_app.
    rewrite (ws_step " " d) by (reflexivity || assumption).
    now rewrite H6. }
  assert (H4 : rmatch (cat [Lit "task"; ws; Opt (cat [Lit "to"; ws]); rest 1])
                 ("task to " ++ d) [] (final 0 t)
               = Some (mkMatch 0 t [(1, d)])).
  { cbn [cat]. cbn [rmatch].
    change ("task to " ++ d) with ("task" ++ String " " ("to " ++ d)).
    rewrite strip_prefix_app.
    fold (rmatch (R := Match)).
    change (rmatch ws (String " " ("to " ++ d)) []
              (fun s1 g1 =>
                 rmatch (Cat (Opt (cat [Lit "to"; ws])) (rest 1)) s1 g1
                        (final 0 t))
            = Some (mkMatch 0 t [(1, d)])).
    rewrite ws_step; [exact H5|reflexivity|].
    now exists "t"%char, ("o " ++ d). }
  assert (H3 : rmatch (cat [Opt (cat [Lit "a"; ws]); Lit "task"; ws;
                            Opt (cat [Lit "to"; ws]); rest 1])
                 ("a task to " ++ d) [] (final 0 t)
               = Some (mkMatch 0 t [(1, d)])).
  { change (cat [Opt (cat [Lit "a"; ws]); Lit "task"; ws;
                 Opt (cat [Lit "to"; ws]); rest 1])
      with (Cat (Opt (Cat (Lit "a") ws))
                (cat [Lit "task"; ws; Opt (cat [Lit "to"; ws]); rest 1])).
    cbn [rmatch].
    change ("a task to " ++ d) with ("a" ++ String " " ("task to " ++ d)).
    rewrite strip_prefix_app.
    change (match
              rmatch ws (String " " ("task to " ++ d)) []
                (fun s1 g1 =>
                   rmatch (cat [Lit "task"; ws; Opt (cat [Lit "to"; ws]);
                                rest 1]) s1 g1 (final 0 t))
            with
            | Some x => Some x
            | None =>
                rmatch (cat [Lit "task"; ws; Opt (cat [Lit "to"; ws]); rest 1])
                  ("a" ++ String " " ("task to " ++ d)) [] (final 0 t)
            end = Some (mkMatch 0 t [(1, d)])).
    rewrite ws_step; [now rewrite H4|reflexivity|].
    now exists "t"%char, ("ask to " ++ d). }
  change (nth 0 create_patterns (Lit ""))
    with (Cat (words ["create"; "add"; "make"; "new"])
              (Cat ws (cat [Opt (cat [Lit "a"; ws]); Lit "task"; ws;
                            Opt (cat [Lit "to"; ws]); rest 1]))).
  change (words ["create"; "add"; "make"; "new"])
    with (Or (Lit "create") (alt [Lit "add"; Lit "make"; Lit "new"])).
  cbn [rmatch].
  change t with ("create" ++ String " " ("a task to " ++ d)).
  rewrite strip_prefix_app.
  change (match
            rmatch ws (String " " ("a task to " ++ d)) []
              (fun s1 g1 =>
                 rmatch (cat [Opt (cat [Lit "a"; ws]); Lit "task"; ws;
                              Opt (cat [Lit "to"; ws]); rest 1])
                        s1 g1 (final 0 t))
          with
          | Some x => Some x
          | None =>
              rmatch (alt [Lit "add"; Lit "make"; Lit "new"])
                ("create" ++ String " " ("a task to " ++ d)) []
                (fun s1 g1 =>
                   rmatch (Cat ws
                             (cat [Opt (cat [Lit "a"; ws]); Lit "task"; ws;
                                   Opt (cat [Lit "to"; ws]); rest 1]))
                          s1 g1 (final 0 t))
          end = Some (mkMatch 0 t [(1, d)])).
  rewrite ws_step; [now rewrite H3|reflexivity|].
  now exists "a"%char, (" task to " ++ d).
Qed.

End CreateATaskTo.

Section CreateATaskToCommand.
Context {U : PyStr.Unicode}.
Import VoiceCommandParser.

Lemma process_create_shape (text description : string) :
  parse_command text
  = Ret (mkVoiceCommand "create" "task"
           (PyDict.update
              [("operation", "create"); ("description", description)]
              (_extract_parameters (normalized text) "create" description))
           (normalized text)) ->
  description <> "" ->
  forall St (task_manager : Store.t St) (s : St),
    ClaraTaskProcessor.process_voice_command task_manager text s
    = try_except
        (Store.create_task task_manager description
           (priority_of (normalized text)))
        (fun e => ret (ClaraTaskProcessor.apology e)) s.
Proof.
  intros Hp Hne St tm s.
  destruct (parsed_parameters "create" description (normalized text))
    as (Ho & Hd & Hprio).
  unfold ClaraTaskProcessor.process_voice_command, try_except, bind, lift.
  rewrite Hp. cbn [action entity].
  change (String.eqb "create" "unknown") with false.
  change (String.eqb "task" "task") with true. cbv iota.
  unfold ClaraTaskProcessor._process_task_command. cbn [parameters].
  rewrite Ho, Hd, Hprio.
  apply String.eqb_neq in Hne. rewrite Hne.
  reflexivity.
Qed.

Lemma create_a_task_to_normalized (d : string) :
  PyStr.lower ("create a task to " ++ d) = "create a task to " ++ d ->
  PyStr.strip d = d -> d <> "" ->
  normalized ("create a task to " ++ d) = "create a task to " ++ d.
Proof.
  intros Hl Hs Hne.
  destruct (strip_fixed_facts d Hs Hne) as (_ & Hc).
  unfold normalized. rewrite Hl.
  unfold PyStr.strip.
  change (PyStr.lstrip ("create a task to " ++ d))
    with ("create a task to " ++ d).
  now apply rstrip_app.
Qed.

Lemma create_a_task_to_parse (d : string) :
  PyStr.lower ("create a task to " ++ d) = "create a task to " ++ d ->
  PyStr.strip d = d -> d <> "" -> single_line d = true ->
  parse_command ("create a task to " ++ d)
  = Ret (mkVoiceCommand "create" "task"
           (PyDict.update
              [("operation", "create"); ("description", d)]
              (_extract_parameters ("create a task to " ++ d) "create" d))
           ("create a task to " ++ d)).
Proof.
  intros Hl Hs Hne Hd.
  destruct (strip_fixed_facts d Hs Hne) as (Hh & _).
  unfold parse_command. fold (normalized ("create a task to " ++ d)).
  rewrite (create_a_task_to_normalized d Hl Hs Hne).
  set (t := "create a task to " ++ d).
  change (scan_table task_patterns t t)
    with (match
            match re.search (nth 0 create_patterns (re.Lit "")) t with
            | Some m =>
                Some (command_of_match "create" t t
                        (nth 0 create_patterns (re.Lit "")) m)
            | None => scan_patterns "create" (tl create_patterns) t t
            end
          with
          | Some r => Some r
          | None => scan_table (tl task_patterns) t t
          end).
  unfold t at 1. rewrite (create_a_task_to_match d Hh Hd). fold t.
  unfold command_of_match.
  change (re.ngroups (nth 0 create_patterns (re.Lit ""))) with 1.
  cbn [Nat.leb re.group re.m_groups re.get_group Nat.eqb].
  now rewrite Hs.
Qed.

(** X20: take an utterance "create a task to " followed by a description,
    where the utterance is left as it is by [str.lower] and the description
    is one line, not empty and without white space around it.  It is parsed
    by the first [create] pattern into a command with exactly that
    description, and the processor, with the task manager as store, stores a
    pending task with it and answers "Task created: " and the
    description. *)
Theorem create_a_task_to_description (d : string) :
  PyStr.lower ("create a task to " ++ d) = "create a task to " ++ d ->
  PyStr.strip d = d -> d <> "" -> single_line d = true ->
  (exists cmd,
     parse_command ("create a task to " ++ d) = Ret cmd /\
     action cmd = "create" /\
     PyDict.get "description" (parameters cmd) = Some d)
  /\ forall (rt : TaskManager.Runtime) (db : TaskManager.tasks_db),
       ClaraTaskProcessor.process_voice_command (TaskManager.store rt)
         ("create a task to " ++ d) db
       = (Ret ("Task created: " ++ d),
          TaskManager.db_set
            (new_task (TaskManager.uuid4 rt) (TaskManager.now rt) d
                      (priority_of ("create a task to " ++ d))) db).
Proof.
  intros Hl Hs Hne Hd.
  pose proof (create_a_task_to_parse d Hl Hs Hne Hd) as Hp.
  pose proof (create_a_task_to_normalized d Hl Hs Hne) as Ht.
  split.
  - eexists. split; [exact Hp|]. split; [reflexivity|]. cbn [parameters].
    now destruct (parsed_parameters "create" d ("create a task to " ++ d))
      as (_ & H & _).
  - intros rt db. rewrite <- Ht in Hp at 2 3.
    rewrite (process_create_shape _ d Hp Hne). now rewrite Ht.
Qed.

End CreateATaskToCommand.

Section CreateATaskToCommandLatin1.
Import VoiceCommandParser.
#[local] Existing Instance PyStr.Latin1.

Lemma create_a_task_to_description_witness :
  ClaraTaskProcessor.process_voice_command
    (TaskManager.store (TaskManager.mkRuntime "u1" 3))
    "create a task to finish the report asap" []
  = (Ret "Task created: finish the report asap",
     [new_task "u1" 3 "finish the report asap" "high"]).
Proof.
  refine (eq_trans
            (proj2 (create_a_task_to_description "finish the report asap"
                      _ _ _ _) (TaskManager.mkRuntime "u1" 3) []) _).
  - reflexivity.
  - reflexivity.
  - discriminate.
  - reflexivity.
  - reflexivity.
Defined.

End CreateATaskToCommandLatin1.

(* ------------------------------------------------------------------ *)
(** ** Text outside ASCII

    The model on the characters up to U+00FF, run on four inputs. *)

Section Latin1Examples.
#[local] Existing Instance PyStr.Latin1.

(** A no-break space alone is a blank utterance. *)
Example no_break_space_is_blank :
  normalized NBSP = "" /\
  VoiceCommandParser.parse_command NBSP
  = Ret (mkVoiceCommand "unknown" "unknown" [("raw_text", "")] "").
Proof. split; reflexivity. Qed.

(** [\s*] of the third temporal pattern takes a no-break space. *)
Example no_break_space_in_time_reference :
  PyDict.get "time_reference"
    (VoiceCommandParser._extract_parameters
       ("call bob at 5" ++ NBSP ++ "pm") "create"
       ("call bob at 5" ++ NBSP ++ "pm"))
  = Some ("at 5" ++ NBSP ++ "pm").
Proof. vm_compute; reflexivity. Qed.

(** [lower] reaches the accented capitals: in the raw text of a command, and
    on both sides of the comparison of [_find_task]. *)
Example accented_capital_is_lowered :
  (exists cmd,
     VoiceCommandParser.parse_command ("Buy CAF" ++ E_acute ++ " filters")
     = Ret cmd /\
     raw_text cmd = "buy caf" ++ e_acute ++ " filters")
  /\ TaskManager._find_task ("CAF" ++ E_acute)
       [TaskManager.mkTask "t1" ("buy caf" ++ e_acute ++ " filters") "low"
          "pending" 0 None None true]
     = Some (TaskManager.mkTask "t1" ("buy caf" ++ e_acute ++ " filters")
               "low" "pending" 0 None None true).
Proof.
  split; [eexists; split; vm_compute; reflexivity|vm_compute; reflexivity].
Qed.

(** A description with an accented capital is not its own normal form. *)
Example accented_capital_not_normalized :
  normalized ("call " ++ E_acute ++ "mile") = "call " ++ e_acute ++ "mile".
Proof. vm_compute; reflexivity. Qed.

End Latin1Examples.
